(** * RFB protocol engine (xpra/net/rfb/rfb_protocol.py)

    A shallow embedding of [RFBProtocol]: the handshake parser, the
    message parser driven by the parser table, the reader's parse loop,
    [send], [invalid] and [close].  Python values keep their dynamic
    types, exceptions are explicit outcomes, and every call made on an
    external collaborator (connection, scheduler, packet sink, queue
    helpers, log file) is appended to a trace carried by the state. *)

From Stdlib Require Import ZArith List Ascii String Bool Lia.
From Stdlib Require Import Strings.Byte Strings.HexString DecimalString.
Import ListNotations.
Local Open Scope Z_scope.

Set Implicit Arguments.

(** ** Python values and builtins *)

Definition bytes := list byte.

(** [b"..."] literals. *)
Definition b (s : string) : bytes := list_byte_of_string s.

Definition newline : byte := x0a.

Definition len {A} (l : list A) : Z := Z.of_nat (List.length l).

Definition str_len (s : string) : Z := Z.of_nat (String.length s).

Inductive pyval :=
| VNone
| VInt (z : Z)
| VStr (s : string)
| VBytes (bs : bytes)
| VTuple (zs : list Z).

Inductive exn :=
| TypeError
| ValueError
| IndexError
| NotImplementedError
| StructError
| ConnectionClosedException
| OSError.

(** The value of an expression, or the exception it raises. *)
Inductive result (A : Type) :=
| Val (a : A)
| Exc (e : exn).
Arguments Val {A} a.
Arguments Exc {A} e.

(** How a call ends: it returns, it raises, or (for the model of a
    [while] loop only) the fuel given to it ran out before the loop
    ended. *)
Inductive outcome (A : Type) :=
| Ok (a : A)
| Raise (e : exn)
| OutOfFuel.
Arguments Ok {A} a.
Arguments Raise {A} e.
Arguments OutOfFuel {A}.

Definition pyval_eq_dec (x y : pyval) : {x = y} + {x <> y}.
Proof.
  decide equality;
    first [ apply Z.eq_dec | apply string_dec
          | apply (list_eq_dec byte_eq_dec) | apply (list_eq_dec Z.eq_dec) ].
Defined.

Definition byte_val (x : byte) : Z := Z.of_N (Byte.to_N x).

(** Index of a slice bound, as Python clamps it: a negative bound counts
    from the end. *)
Definition slice_bound (n i : Z) : Z :=
  if i <? 0 then Z.max 0 (n + i) else Z.min i n.

(** [l[lo:hi]]; [None] is an omitted bound. *)
Definition slice {A} (l : list A) (lo hi : option Z) : list A :=
  let n := len l in
  let a := match lo with None => 0 | Some i => slice_bound n i end in
  let z := match hi with None => n | Some j => slice_bound n j end in
  firstn (Z.to_nat (z - a)) (skipn (Z.to_nat a) l).

(** [l[i]] for a non-negative constant index. *)
Definition getitem {A} (l : list A) (i : nat) : result A :=
  match nth_error l i with
  | Some x => Val x
  | None => Exc IndexError
  end.

(** [l[0] = v] *)
Definition setitem0 {A} (l : list A) (v : A) : result (list A) :=
  match l with
  | [] => Exc IndexError
  | _ :: t => Val (v :: t)
  end.

Fixpoint startswith (l p : bytes) : bool :=
  match p, l with
  | [], _ => true
  | _ :: _, [] => false
  | x :: p', y :: l' => Byte.eqb x y && startswith l' p'
  end.

(** [l.split(sep)] for a one-byte separator: always at least one piece. *)
Fixpoint split (sep : byte) (l : bytes) : list bytes :=
  match l with
  | [] => [[]]
  | x :: t =>
      if Byte.eqb x sep then [] :: split sep t
      else match split sep t with
           | [] => [[x]]
           | piece :: rest => (x :: piece) :: rest
           end
  end.

(** *** [int(x)] on a bytes object *)

Definition is_space (x : byte) : bool :=
  let v := byte_val x in ((9 <=? v) && (v <=? 13)) || (v =? 32).

Definition is_digit (x : byte) : bool :=
  let v := byte_val x in (48 <=? v) && (v <=? 57).

Fixpoint lstrip (l : bytes) : bytes :=
  match l with
  | x :: t => if is_space x then lstrip t else l
  | [] => []
  end.

Definition strip (l : bytes) : bytes := rev (lstrip (rev (lstrip l))).

(** Digits with single underscores between them; [prev] tells whether
    the previous byte was a digit. *)
Fixpoint int_digits (prev : bool) (acc : Z) (l : bytes) : option Z :=
  match l with
  | [] => if prev then Some acc else None
  | x :: t =>
      if is_digit x then int_digits true (10 * acc + (byte_val x - 48)) t
      else if Byte.eqb x "_"%byte then
             (if prev then int_digits false acc t else None)
      else None
  end.

Definition py_int (x : bytes) : result Z :=
  let r := match strip x with
           | c :: t =>
               if Byte.eqb c "-"%byte then option_map Z.opp (int_digits false 0 t)
               else if Byte.eqb c "+"%byte then int_digits false 0 t
               else int_digits false 0 (c :: t)
           | [] => None
           end in
  match r with
  | Some z => Val z
  | None => Exc ValueError
  end.

(** [tuple(int(x) for x in pieces)] *)
Fixpoint tuple_int (pieces : list bytes) : result (list Z) :=
  match pieces with
  | [] => Val []
  | x :: t =>
      match py_int x with
      | Val z => match tuple_int t with
                | Val zs => Val (z :: zs)
                | r => r
                end
      | Exc e => Exc e
      end
  end.

(** [t == u] on tuples of integers. *)
Definition tuple_eqb (t u : list Z) : bool :=
  if list_eq_dec Z.eq_dec t u then true else false.

(** [x + y]: sequences of the same type concatenate, anything else with a
    sequence is a [TypeError]. *)
Definition py_add (x y : pyval) : result pyval :=
  match x, y with
  | VInt m, VInt n => Val (VInt (m + n))
  | VStr s, VStr t => Val (VStr (s ++ t)%string)
  | VBytes s, VBytes t => Val (VBytes (s ++ t))
  | VTuple s, VTuple t => Val (VTuple (s ++ t))
  | _, _ => Exc TypeError
  end.

(** ["%#x" % n] and ["%i" % n] *)
Definition fmt_hex (n : Z) : string := HexString.of_Z n.
Definition fmt_int (n : Z) : string := NilZero.string_of_int (Z.to_int n).

(** ** The [struct] module, network byte order *)

Inductive fmt_code := Fx | Fb | FB | Fh | FH | Fi | FI | Fq | FQ.

(** A compiled [struct.Struct(b"!...")], one code per field. *)
Definition Struct := list fmt_code.

Definition code_size (c : fmt_code) : nat :=
  match c with
  | Fx | Fb | FB => 1
  | Fh | FH => 2
  | Fi | FI => 4
  | Fq | FQ => 8
  end%nat.

Definition code_signed (c : fmt_code) : bool :=
  match c with
  | Fb | Fh | Fi | Fq => true
  | _ => false
  end.

Fixpoint struct_size_nat (s : Struct) : nat :=
  match s with
  | [] => 0
  | c :: s' => code_size c + struct_size_nat s'
  end%nat.

(** [s.size] *)
Definition struct_size (s : Struct) : Z := Z.of_nat (struct_size_nat s).

Definition be_uint (bs : bytes) : Z :=
  fold_left (fun acc x => acc * 256 + byte_val x) bs 0.

Definition decode_field (c : fmt_code) (bs : bytes) : Z :=
  let u := be_uint bs in
  let w := 2 ^ (8 * Z.of_nat (code_size c)) in
  if code_signed c && (w / 2 <=? u) then u - w else u.

Fixpoint unpack_fields (s : Struct) (data : bytes) : list Z :=
  match s with
  | [] => []
  | c :: s' =>
      let field := firstn (code_size c) data in
      let rest := skipn (code_size c) data in
      match c with
      | Fx => unpack_fields s' rest
      | _ => decode_field c field :: unpack_fields s' rest
      end
  end.

(** [s.unpack(data)]: the buffer must have exactly [s.size] bytes. *)
Definition unpack (s : Struct) (data : bytes) : result (list Z) :=
  if len data =? struct_size s then Val (unpack_fields s data)
  else Exc StructError.

Definition byte_of_Z (z : Z) : byte :=
  match Byte.of_N (Z.to_N (z mod 256)) with
  | Some x => x
  | None => x00
  end.

Fixpoint be_bytes (n : nat) (z : Z) : bytes :=
  match n with
  | O => []
  | S n' => be_bytes n' (z / 256) ++ [byte_of_Z z]
  end.

Definition field_in_range (c : fmt_code) (z : Z) : bool :=
  let w := 2 ^ (8 * Z.of_nat (code_size c)) in
  if code_signed c then (- (w / 2) <=? z) && (z <? w / 2)
  else (0 <=? z) && (z <? w).

(** [struct.pack(fmt, *vals)] *)
Fixpoint pack (s : Struct) (vals : list Z) : result bytes :=
  match s, vals with
  | [], [] => Val []
  | Fx :: s', _ =>
      match pack s' vals with
      | Val r => Val (x00 :: r)
      | r => r
      end
  | c :: s', v :: vals' =>
      if field_in_range c v then
        match pack s' vals' with
        | Val r => Val (be_bytes (code_size c) v ++ r)
        | r => r
        end
      else Exc StructError
  | _, _ => Exc StructError
  end.

(** ** The protocol object *)

Inductive Connection := Conn (id : nat).
Inductive Callback := PacketSink (id : nat).
Inductive Thread := ReadThread | WriteThread.

(** The value of [self._packet_parser]. *)
Inductive Parser :=
| ParseProtocolHandshake
| ParseSecurityHandshake
| ParseChallenge
| ParseSecurityResult
| ParseRfb
| ParseInvalid.

(** A [queue.Queue], oldest item first; [VNone] is the exit marker. *)
Definition Queue := list pyval.

(** What is handed to [idle_add] / [timeout_add]: the callable with the
    arguments bound when the call was scheduled. *)
Inductive Deferred :=
| DSink (cb : option Callback) (packet : list pyval)
| DConnectionLost (msg : string)
| DClose
| DClean
| DStartNetworkReadThread.

(** Calls made on the collaborators, in the order they happen. *)
Inductive Event :=
| ConnClose (c : Connection)
| SinkCall (cb : Callback) (packet : list pyval)
| IdleAdd (d : Deferred)
| TimeoutAdd (ms : Z) (d : Deferred)
| StartThread (name : string)
| ForceFlushQueue (q : Queue)
| LogWrite (line : string)
| LogClose.

Record State := mkState {
  _conn : option Connection;
  _process_packet_cb : option Callback;
  _write_queue : Queue;
  _buffer : bytes;
  input_packetcount : Z;
  input_raw_packetcount : Z;
  output_packetcount : Z;
  output_raw_packetcount : Z;
  _closed : bool;
  _packet_parser : Parser;
  _write_thread : option Thread;
  _read_thread : option Thread;
  log : bool;                    (* the RFB_LOG file is open *)
  trace : list Event
}.

Definition set_conn v st :=
  mkState v (_process_packet_cb st) (_write_queue st) (_buffer st)
    (input_packetcount st) (input_raw_packetcount st) (output_packetcount st)
    (output_raw_packetcount st) (_closed st) (_packet_parser st)
    (_write_thread st) (_read_thread st) (log st) (trace st).
Definition set_process_packet_cb v st :=
  mkState (_conn st) v (_write_queue st) (_buffer st)
    (input_packetcount st) (input_raw_packetcount st) (output_packetcount st)
    (output_raw_packetcount st) (_closed st) (_packet_parser st)
    (_write_thread st) (_read_thread st) (log st) (trace st).
Definition set_write_queue v st :=
  mkState (_conn st) (_process_packet_cb st) v (_buffer st)
    (input_packetcount st) (input_raw_packetcount st) (output_packetcount st)
    (output_raw_packetcount st) (_closed st) (_packet_parser st)
    (_write_thread st) (_read_thread st) (log st) (trace st).
Definition set_buffer v st :=
  mkState (_conn st) (_process_packet_cb st) (_write_queue st) v
    (input_packetcount st) (input_raw_packetcount st) (output_packetcount st)
    (output_raw_packetcount st) (_closed st) (_packet_parser st)
    (_write_thread st) (_read_thread st) (log st) (trace st).
Definition set_input_packetcount v st :=
  mkState (_conn st) (_process_packet_cb st) (_write_queue st) (_buffer st)
    v (input_raw_packetcount st) (output_packetcount st)
    (output_raw_packetcount st) (_closed st) (_packet_parser st)
    (_write_thread st) (_read_thread st) (log st) (trace st).
Definition set_input_raw_packetcount v st :=
  mkState (_conn st) (_process_packet_cb st) (_write_queue st) (_buffer st)
    (input_packetcount st) v (output_packetcount st)
    (output_raw_packetcount st) (_closed st) (_packet_parser st)
    (_write_thread st) (_read_thread st) (log st) (trace st).
Definition set_closed v st :=
  mkState (_conn st) (_process_packet_cb st) (_write_queue st) (_buffer st)
    (input_packetcount st) (input_raw_packetcount st) (output_packetcount st)
    (output_raw_packetcount st) v (_packet_parser st)
    (_write_thread st) (_read_thread st) (log st) (trace st).
Definition set_packet_parser v st :=
  mkState (_conn st) (_process_packet_cb st) (_write_queue st) (_buffer st)
    (input_packetcount st) (input_raw_packetcount st) (output_packetcount st)
    (output_raw_packetcount st) (_closed st) v
    (_write_thread st) (_read_thread st) (log st) (trace st).
Definition set_write_thread v st :=
  mkState (_conn st) (_process_packet_cb st) (_write_queue st) (_buffer st)
    (input_packetcount st) (input_raw_packetcount st) (output_packetcount st)
    (output_raw_packetcount st) (_closed st) (_packet_parser st)
    v (_read_thread st) (log st) (trace st).
Definition set_read_thread v st :=
  mkState (_conn st) (_process_packet_cb st) (_write_queue st) (_buffer st)
    (input_packetcount st) (input_raw_packetcount st) (output_packetcount st)
    (output_raw_packetcount st) (_closed st) (_packet_parser st)
    (_write_thread st) v (log st) (trace st).
Definition set_log v st :=
  mkState (_conn st) (_process_packet_cb st) (_write_queue st) (_buffer st)
    (input_packetcount st) (input_raw_packetcount st) (output_packetcount st)
    (output_raw_packetcount st) (_closed st) (_packet_parser st)
    (_write_thread st) (_read_thread st) v (trace st).
Definition set_trace v st :=
  mkState (_conn st) (_process_packet_cb st) (_write_queue st) (_buffer st)
    (input_packetcount st) (input_raw_packetcount st) (output_packetcount st)
    (output_raw_packetcount st) (_closed st) (_packet_parser st)
    (_write_thread st) (_read_thread st) (log st) v.

(** [RFBProtocol.__init__] (the read thread object is created, not
    started). *)
Definition init (conn : Connection) (process_packet_cb : option Callback)
    (data : bytes) (rfb_log : bool) : State :=
  mkState (Some conn) process_packet_cb [] data 0 0 0 0 false
    ParseProtocolHandshake None (Some ReadThread) rfb_log [].

(** ** Methods as state transformers that may raise *)

Definition M (A : Type) := State -> outcome A * State.

Definition ret {A} (a : A) : M A := fun st => (Ok a, st).

Definition bind {A B} (c : M A) (k : A -> M B) : M B :=
  fun st =>
    match c st with
    | (Ok a, st') => k a st'
    | (Raise e, st') => (Raise e, st')
    | (OutOfFuel, st') => (OutOfFuel, st')
    end.

Declare Scope py_scope.
Delimit Scope py_scope with py.
Notation "x <- c ;; k" := (bind c (fun x => k))
  (at level 61, c at next level, right associativity) : py_scope.
Notation "c ;; k" := (bind c (fun _ => k))
  (at level 61, right associativity) : py_scope.
Local Open Scope py_scope.

(** An expression that may raise, evaluated in the current state. *)
Definition eval {A} (r : result A) : M A :=
  fun st => (match r with Val a => Ok a | Exc e => Raise e end, st).

Definition out_of_fuel {A} : M A := fun st => (OutOfFuel, st).

Definition read {A} (f : State -> A) : M A := fun st => (Ok (f st), st).

Definition modify (f : State -> State) : M unit := fun st => (Ok tt, f st).

Definition emit (e : Event) : M unit :=
  modify (fun st => set_trace (trace st ++ [e]) st).

Definition pass : M unit := ret tt.

(** ** What the module imports *)

(** [xpra.net.rfb.rfb_const]: the message-type codes singled out by the
    parser and the two tables, read with [dict.get]. *)
Class RfbConst := {
  SetEncodings : Z;
  ClientCutText : Z;
  CLIENT_PACKET_TYPE_STR : Z -> option string;
  PACKET_STRUCT : Z -> option Struct
}.

(** [xpra.net.protocol], [xpra.os_util], [xpra.util] and the
    connection's [str()]. *)
Class Externals := {
  INVALID : pyval;
  CONNECTION_LOST : pyval;
  exit_queue : Queue;
  hexstr : pyval -> string;
  repr_ellipsized : bytes -> string;
  conn_str : option Connection -> string
}.

(** The methods a concrete connection variant supplies. *)
Class Subclass := {
  handshake_complete : M unit;
  _parse_security_handshake : bytes -> M Z;
  _parse_challenge : bytes -> M Z;
  _parse_security_result : bytes -> M Z
}.

(** [RFBProtocol] itself leaves all four unimplemented. *)
Definition BaseClass : Subclass := {|
  handshake_complete := eval (Exc NotImplementedError);
  _parse_security_handshake := fun _ => eval (Exc NotImplementedError);
  _parse_challenge := fun _ => eval (Exc NotImplementedError);
  _parse_security_result := fun _ => eval (Exc NotImplementedError)
|}.

Definition nl : string := String (Ascii.ascii_of_nat 10) EmptyString.

Definition PROTOCOL_VERSION : list Z := [3; 8].

Section Protocol.

Context {K : RfbConst} {X : Externals} {V : Subclass}.

Definition idle_add (d : Deferred) : M unit := emit (IdleAdd d).

Definition timeout_add (ms : Z) (d : Deferred) : M unit := emit (TimeoutAdd ms d).

(** [self._process_packet_cb(self, packet)]; calling [None] is a
    [TypeError]. *)
Definition call_process_packet_cb (packet : list pyval) : M unit :=
  cb <- read _process_packet_cb ;;
  match cb with
  | Some f => emit (SinkCall f packet)
  | None => eval (Exc TypeError)
  end.

Definition invalid (msg : string) (data : bytes) : M unit :=
  modify (set_packet_parser ParseInvalid) ;;
  cb <- read _process_packet_cb ;;
  idle_add (DSink cb [INVALID; VStr msg; VBytes data]) ;;
  timeout_add 1000 (DConnectionLost msg).

Definition _invalid_header (data : bytes) (msg : string) : M unit :=
  modify (set_packet_parser ParseInvalid) ;;
  let err := (msg ++ ": '" ++ hexstr (VBytes (slice data None (Some 8))) ++ "'")%string in
  let err := if 1 <? len data
             then (err ++ " read buffer=" ++ repr_ellipsized data
                       ++ " (" ++ fmt_int (len data) ++ " bytes)")%string
             else err in
  invalid err data.

(** The [proto] argument is only logged. *)
Definition invalid_header (data : bytes) (msg : string) : M unit :=
  _invalid_header data msg.

Definition start_write_thread : M unit :=
  emit (StartThread "write") ;;
  modify (set_write_thread (Some WriteThread)).

(** Debug logging through [log(...)] is not part of the model. *)
Definition send (packet : pyval) : M unit :=
  closed <- read _closed ;;
  if closed then ret tt
  else
    logging <- read log ;;
    (if logging then emit (LogWrite ("send: " ++ hexstr packet ++ nl)%string)
     else pass) ;;
    wt <- read _write_thread ;;
    match wt with
    | None => start_write_thread
    | Some _ => pass
    end ;;
    modify (fun st => set_write_queue (_write_queue st ++ [packet]) st).

Definition send_protocol_handshake : M unit :=
  send (VBytes (b "RFB 003.008" ++ [newline])).

Definition _parse_invalid (packet : bytes) : M Z := ret (len packet).

Definition _parse_protocol_handshake (packet : bytes) : M Z :=
  if len packet <? 12 then ret 0
  else if negb (startswith packet (b "RFB ")) then
    invalid_header packet "invalid RFB protocol handshake packet header" ;;
    ret 0
  else
    protocol_version <-
      eval (tuple_int (split "."%byte (slice packet (Some 4) (Some 11)))) ;;
    if negb (tuple_eqb protocol_version PROTOCOL_VERSION) then
      let msg := "unsupported protocol version"%string in
      head <- eval (pack [FB; FI] [0; str_len msg]) ;;
      reply <- eval (py_add (VBytes head) (VStr msg)) ;;
      send reply ;;
      invalid msg packet ;;
      ret 0
    else
      handshake_complete ;;
      ret 12.

Definition as_int (v : pyval) : result Z :=
  match v with
  | VInt z => Val z
  | _ => Exc TypeError
  end.

(** The tail of [_parse_rfb], once the whole message is buffered. *)
Definition dispatch (values : list pyval) (size : Z) : M Z :=
  modify (fun st => set_input_packetcount (input_packetcount st + 1) st) ;;
  call_process_packet_cb values ;;
  ret size.

Definition _parse_rfb (packet : bytes) : M Z :=
  x <- eval (getitem packet 0) ;;
  let ptype := byte_val x in
  match CLIENT_PACKET_TYPE_STR ptype with
  | None | Some EmptyString =>
      invalid ("unknown RFB packet type: " ++ fmt_hex ptype)%string packet ;;
      ret 0
  | Some packet_type =>
      match PACKET_STRUCT ptype with
      | None =>
          invalid ("RFB packet type '" ++ packet_type ++ "' is not supported")%string
                  packet ;;
          ret 0
      | Some s =>
          if len packet <? struct_size s then ret 0
          else
            let size := struct_size s in
            ints <- eval (unpack s (slice packet None (Some size))) ;;
            values <- eval (setitem0 (map VInt ints) (VStr packet_type)) ;;
            if ptype =? SetEncodings then
              v <- eval (getitem values 2) ;;
              N <- eval (as_int v) ;;
              let estruct : Struct := repeat Fi (Z.to_nat N) in
              let size := size + struct_size estruct in
              if len packet <? size then ret 0
              else
                encodings <-
                  eval (unpack estruct
                          (slice packet (Some (struct_size s)) (Some size))) ;;
                dispatch (values ++ [VTuple encodings]) size
            else if ptype =? ClientCutText then
              v <- eval (getitem values 4) ;;
              l <- eval (as_int v) ;;
              let size := size + l in
              if len packet <? size then ret 0
              else
                let text := slice packet (Some (struct_size s)) (Some size) in
                dispatch (values ++ [VBytes text]) size
            else
              dispatch values size
      end
  end.

Definition terminate_queue_threads : M unit :=
  owq <- read _write_queue ;;
  modify (set_write_queue exit_queue) ;;
  emit (ForceFlushQueue owq).

Definition clean : M unit :=
  modify (set_write_thread None) ;;
  modify (set_read_thread None) ;;
  modify (set_process_packet_cb None).

(** An [IOError] out of [c.close()] is caught and logged, so both ways
    the connection's [close] can end continue alike. *)
Definition close : M unit :=
  closed <- read _closed ;;
  if closed then ret tt
  else
    modify (set_closed true) ;;
    c <- read _conn ;;
    match c with
    | Some conn => emit (ConnClose conn) ;; modify (set_conn None)
    | None => pass
    end ;;
    terminate_queue_threads ;;
    call_process_packet_cb [CONNECTION_LOST] ;;
    idle_add DClean ;;
    logging <- read log ;;
    if logging then emit LogClose ;; modify (set_log false)
    else pass.

Definition _connection_lost (message : string) : M bool :=
  close ;;
  ret false.

Definition _internal_error (message : string) : M unit :=
  closed <- read _closed ;;
  if closed then ret tt
  else idle_add (DConnectionLost message).

Definition start : M unit := idle_add DStartNetworkReadThread.

(** The scheduler running a deferred call. *)
Definition run_deferred (d : Deferred) : M unit :=
  match d with
  | DSink (Some f) packet => emit (SinkCall f packet)
  | DSink None _ => eval (Exc TypeError)
  | DConnectionLost msg => _connection_lost msg ;; ret tt
  | DClose => close
  | DClean => clean
  | DStartNetworkReadThread =>
      closed <- read _closed ;;
      if closed then pass else emit (StartThread "read")
  end.

(** [self._packet_parser(packet)] *)
Definition packet_parser (p : Parser) : bytes -> M Z :=
  match p with
  | ParseProtocolHandshake => _parse_protocol_handshake
  | ParseSecurityHandshake => _parse_security_handshake
  | ParseChallenge => _parse_challenge
  | ParseSecurityResult => _parse_security_result
  | ParseRfb => _parse_rfb
  | ParseInvalid => _parse_invalid
  end.

(** The [while self._buffer:] loop of [_read]; one unit of fuel per
    parser call. *)
Fixpoint parse_loop (fuel : nat) : M unit :=
  buffer <- read _buffer ;;
  match buffer with
  | [] => ret tt
  | _ :: _ =>
      match fuel with
      | O => out_of_fuel
      | S fuel' =>
          p <- read _packet_parser ;;
          consumed <- packet_parser p buffer ;;
          if consumed =? 0 then ret tt
          else
            modify (fun st => set_buffer (slice (_buffer st) (Some consumed) None) st) ;;
            parse_loop fuel'
      end
  end.

(** [_read], given what [c.read(READ_BUFFER_SIZE)] does when called;
    the result is [None], [False] or [True]. *)
Definition _read (fuel : nat) (r : result bytes) : M (option bool) :=
  c <- read _conn ;;
  match c with
  | None => ret None
  | Some _ =>
      buf <- eval r ;;
      match buf with
      | [] =>
          timeout_add 1000 DClose ;;
          ret (Some false)
      | _ :: _ =>
          logging <- read log ;;
          (if logging then emit (LogWrite ("receive: " ++ hexstr (VBytes buf) ++ nl)%string)
           else pass) ;;
          modify (fun st => set_input_raw_packetcount (input_raw_packetcount st + 1) st) ;;
          modify (fun st => set_buffer (_buffer st ++ buf) st) ;;
          parse_loop fuel ;;
          ret (Some true)
      end
  end.

(** [while not self._closed and callback(): pass] for the read thread,
    over the successive results of the connection's [read]; when they
    are used up the thread stays blocked in [read]. *)
Fixpoint read_while (fuel : nat) (reads : list (result bytes)) : M unit :=
  match reads with
  | [] => ret tt
  | r :: reads' =>
      closed <- read _closed ;;
      if closed then ret tt
      else
        again <- _read fuel r ;;
        match again with
        | Some true => read_while fuel reads'
        | _ => ret tt
        end
  end.

Definition try_except {A} (c : M A) (handler : exn -> M A) : M A :=
  fun st =>
    match c st with
    | (Raise e, st') => handler e st'
    | r => r
    end.

(** [_read_thread_loop]: [_io_thread_loop("read", self._read)]. *)
Definition _read_thread_loop (fuel : nat) (reads : list (result bytes)) : M unit :=
  try_except (read_while fuel reads)
    (fun e =>
       closed <- read _closed ;;
       if closed then ret tt
       else
         c <- read _conn ;;
         match e with
         | ConnectionClosedException =>
             _connection_lost ("read connection " ++ conn_str c ++ " closed")%string ;;
             ret tt
         | OSError =>
             _internal_error ("read connection " ++ conn_str c ++ " reset")%string
         | _ => close
         end).

End Protocol.

(** ** Reading the trace, and the parser's decision as a value *)

Section Observations.

Context {K : RfbConst} {X : Externals} {V : Subclass}.

(** The packets handed to the packet sink directly, in order. *)
Fixpoint sink_packets (t : list Event) : list (list pyval) :=
  match t with
  | [] => []
  | SinkCall _ p :: t' => p :: sink_packets t'
  | _ :: t' => sink_packets t'
  end.

(** The packets addressed to the packet sink, directly or through the
    scheduler's idle tick. *)
Fixpoint notifications (t : list Event) : list (list pyval) :=
  match t with
  | [] => []
  | SinkCall _ p :: t' => p :: notifications t'
  | IdleAdd (DSink _ p) :: t' => p :: notifications t'
  | _ :: t' => notifications t'
  end.

Definition count (p : Event -> bool) (t : list Event) : nat :=
  List.length (filter p t).

Definition is_conn_close (e : Event) : bool :=
  match e with
  | ConnClose _ => true
  | _ => false
  end.

(** [force_flush_queue(owq)] is what puts the exit marker in front of
    the write thread. *)
Definition is_sentinel (e : Event) : bool :=
  match e with
  | ForceFlushQueue _ => true
  | _ => false
  end.

Definition is_connection_lost (e : Event) : bool :=
  match e with
  | SinkCall _ [v] => if pyval_eq_dec v CONNECTION_LOST then true else false
  | _ => false
  end.

(** What [_parse_rfb] decides from the bytes alone. *)
Inductive Frame :=
| NeedMore
| Unknown (msg : string)
| Message (values : list pyval) (size : Z)
| Fails (e : exn).

Definition frame_of {A} (r : result A) (k : A -> Frame) : Frame :=
  match r with
  | Val a => k a
  | Exc e => Fails e
  end.

Definition frame_typed (ptype : Z) (packet : bytes) : Frame :=
  match CLIENT_PACKET_TYPE_STR ptype with
  | None | Some EmptyString =>
      Unknown ("unknown RFB packet type: " ++ fmt_hex ptype)%string
  | Some packet_type =>
      match PACKET_STRUCT ptype with
      | None =>
          Unknown ("RFB packet type '" ++ packet_type ++ "' is not supported")%string
      | Some s =>
          if len packet <? struct_size s then NeedMore
          else
            let size := struct_size s in
            frame_of (unpack s (slice packet None (Some size))) (fun ints =>
            frame_of (setitem0 (map VInt ints) (VStr packet_type)) (fun values =>
            if ptype =? SetEncodings then
              frame_of (getitem values 2) (fun v =>
              frame_of (as_int v) (fun N =>
              let estruct : Struct := repeat Fi (Z.to_nat N) in
              let size := size + struct_size estruct in
              if len packet <? size then NeedMore
              else
                frame_of (unpack estruct
                            (slice packet (Some (struct_size s)) (Some size)))
                  (fun encodings => Message (values ++ [VTuple encodings]) size)))
            else if ptype =? ClientCutText then
              frame_of (getitem values 4) (fun v =>
              frame_of (as_int v) (fun l =>
              let size := size + l in
              if len packet <? size then NeedMore
              else
                Message (values ++ [VBytes (slice packet (Some (struct_size s)) (Some size))])
                        size))
            else Message values size))
      end
  end.

Definition frame (packet : bytes) : Frame :=
  frame_of (getitem packet 0) (fun x => frame_typed (byte_val x) packet).

(** Carrying a decision out on the protocol object. *)
Definition run_frame (packet : bytes) (f : Frame) : M Z :=
  match f with
  | NeedMore => ret 0
  | Unknown msg => invalid msg packet ;; ret 0
  | Message values size => dispatch values size
  | Fails e => eval (Exc e)
  end.

(** [m] is one complete message decoding to [values]: the parser's
    decision on exactly these bytes is to dispatch [values] and consume
    them all. *)
Definition complete_message (m : bytes) (values : list pyval) : Prop :=
  frame m = Message values (len m).

(** The state after a [_read] that buffered [buf] and parsed nothing. *)
Definition absorb (buf : bytes) (st : State) : State :=
  let st1 := if log st
             then set_trace (trace st ++ [LogWrite ("receive: " ++ hexstr (VBytes buf) ++ nl)%string]) st
             else st in
  set_buffer (_buffer st ++ buf)
    (set_input_raw_packetcount (input_raw_packetcount st + 1) st1).

Definition absorb_all (chunks : list bytes) (st : State) : State :=
  fold_left (fun s ch => absorb ch s) chunks st.

(** Between [st] and [st'] nothing was addressed to the packet sink, no
    input packet was counted, and the discard parser is active. *)
Definition silent (st st' : State) : Prop :=
  notifications (trace st') = notifications (trace st) /\
  sink_packets (trace st') = sink_packets (trace st) /\
  input_packetcount st' = input_packetcount st /\
  _packet_parser st' = ParseInvalid.

(** The state after the packet sink was handed [values]. *)
Definition delivered (f : Callback) (values : list pyval) (st : State) : State :=
  set_trace (trace st ++ [SinkCall f values])
    (set_input_packetcount (input_packetcount st + 1) st).

(** The [n] big-endian signed 32-bit integers at the front of [data]. *)
Fixpoint be_int32s (n : nat) (data : bytes) : list Z :=
  match n with
  | O => []
  | S n' => decode_field Fi (firstn 4 data) :: be_int32s n' (skipn 4 data)
  end.

(** ** [close] statement by statement, for two threads *)

(** Where a thread stands inside [close]. *)
Inductive close_pc :=
| AtTest              (* if self._closed: return *)
| AtSetClosed         (* self._closed = True *)
| AtLoadConn          (* c = self._conn *)
| AtConnClose (c : option Connection)   (* if c: c.close() *)
| AtClearConn         (* self._conn = None *)
| AtTerminate         (* self.terminate_queue_threads() *)
| AtNotify            (* self._process_packet_cb(self, [CONNECTION_LOST]) *)
| AtIdleAdd           (* self.idle_add(self.clean) *)
| AtLog               (* if self.log: self.log.close(); self.log = None *)
| Ended (o : outcome unit).

Definition close_step (pc : close_pc) (st : State) : close_pc * State :=
  match pc with
  | AtTest => if _closed st then (Ended (Ok tt), st) else (AtSetClosed, st)
  | AtSetClosed => (AtLoadConn, set_closed true st)
  | AtLoadConn => (AtConnClose (_conn st), st)
  | AtConnClose (Some conn) => (AtClearConn, snd (emit (ConnClose conn) st))
  | AtConnClose None => (AtTerminate, st)
  | AtClearConn => (AtTerminate, set_conn None st)
  | AtTerminate => (AtNotify, snd (terminate_queue_threads st))
  | AtNotify =>
      match call_process_packet_cb [CONNECTION_LOST] st with
      | (Ok _, st') => (AtIdleAdd, st')
      | (o, st') => (Ended o, st')
      end
  | AtIdleAdd => (AtLog, snd (idle_add DClean st))
  | AtLog =>
      (Ended (Ok tt),
       if log st then set_log false (snd (emit LogClose st)) else st)
  | Ended o => (Ended o, st)
  end.

Definition ended (pc : close_pc) : bool :=
  match pc with
  | Ended _ => true
  | _ => false
  end.

(** One thread running [close] alone for [n] statements. *)
Fixpoint run_close (n : nat) (pc : close_pc) (st : State) : close_pc * State :=
  match n with
  | O => (pc, st)
  | S n' => let (pc', st') := close_step pc st in run_close n' pc' st'
  end.

(** Two threads inside [close] over the same object. *)
Record Config := mkConfig {
  thread1 : close_pc;
  thread2 : close_pc;
  shared : State
}.

(** The scheduler lets thread 1 ([true]) or thread 2 ([false]) execute
    its next statement. *)
Definition sched_step (cfg : Config) (first : bool) : Config :=
  if first then
    let (pc, st) := close_step (thread1 cfg) (shared cfg) in
    mkConfig pc (thread2 cfg) st
  else
    let (pc, st) := close_step (thread2 cfg) (shared cfg) in
    mkConfig (thread1 cfg) pc st.

Definition run_schedule (sched : list bool) (cfg : Config) : Config :=
  fold_left sched_step sched cfg.

Definition both_ended (cfg : Config) : bool :=
  ended (thread1 cfg) && ended (thread2 cfg).

(** The events a run added to the trace. *)
Definition new_events (st st' : State) : list Event :=
  skipn (List.length (trace st)) (trace st').

(** A ClientCutText header, [x] being the type byte, whose 32-bit
    length field holds ff ff ff f0: -16 when read as signed. *)
Definition cut_text_minus_16 (x : byte) : bytes :=
  [x; x00; x00; x00; xff; xff; xff; xf0].

(** No message is framed with a negative size. *)
Definition bounded_frames : Prop :=
  forall (packet : bytes) (values : list pyval) (size : Z),
    frame packet = Message values size -> 0 <= size.

(** Every field of the ClientCutText layout is unsigned. *)
Definition unsigned_cut_text : Prop :=
  forall s, PACKET_STRUCT ClientCutText = Some s ->
            Forall (fun c => code_signed c = false) s.

(** Two calls of [close] entered on [st], interleaved in any way: once
    both have ended, the connection was closed once, the exit marker
    queued once and CONNECTION_LOST delivered once. *)
Definition close_exactly_once (st : State) : Prop :=
  forall sched : list bool,
    let cfg := run_schedule sched (mkConfig AtTest AtTest st) in
    both_ended cfg = true ->
    let ev := new_events st (shared cfg) in
    count is_conn_close ev = 1%nat /\
    count is_sentinel ev = 1%nat /\
    count is_connection_lost ev = 1%nat.

(** The schedule that lets the two threads take turns, [n] statements
    each. *)
Fixpoint take_turns (n : nat) : list bool :=
  match n with
  | O => []
  | S n' => true :: false :: take_turns n'
  end.

End Observations.

(** ** A sample instantiation

    The tables of [rfb_const] are a parameter of the development.  The
    sample below gives the client messages of the RFB protocol their
    layouts (SetEncodings: type, padding, 16-bit count; ClientCutText:
    type, three padding bytes, 32-bit length), the 32-bit fields being
    read with the format code [i], and is used to run the model on
    concrete buffers. *)
Module Sample.

Definition table : RfbConst := {|
  SetEncodings := 2;
  ClientCutText := 6;
  CLIENT_PACKET_TYPE_STR := fun t =>
    match t with
    | 0 => Some "SetPixelFormat"%string
    | 2 => Some "SetEncodings"%string
    | 3 => Some "FramebufferUpdateRequest"%string
    | 4 => Some "KeyEvent"%string
    | 5 => Some "PointerEvent"%string
    | 6 => Some "ClientCutText"%string
    | 7 => Some "FileTransfer"%string
    | _ => None
    end;
  PACKET_STRUCT := fun t =>
    match t with
    | 0 => Some [FB; FB; FB; FB; FB; FB; FB; FB; FH; FH; FH; FB; FB; FB; FB; FB; FB]
    | 2 => Some [FB; FB; FH]
    | 3 => Some [FB; FB; FH; FH; FH; FH]
    | 4 => Some [FB; FB; FB; FB; Fi]
    | 5 => Some [FB; FB; FH; FH]
    | 6 => Some [FB; FB; FB; FB; Fi]
    | _ => None
    end
|}.

Definition externals : Externals := {|
  INVALID := VStr "invalid";
  CONNECTION_LOST := VStr "connection-lost";
  exit_queue := [VNone];
  hexstr := fun _ => "<hex>"%string;
  repr_ellipsized := fun _ => "<repr>"%string;
  conn_str := fun _ => "<conn>"%string
|}.

(** A connection variant without authentication: the handshake is
    followed directly by the message loop. *)
Definition no_auth : Subclass := {|
  handshake_complete := modify (set_packet_parser ParseRfb);
  _parse_security_handshake := fun _ => eval (Exc NotImplementedError);
  _parse_challenge := fun _ => eval (Exc NotImplementedError);
  _parse_security_result := fun _ => eval (Exc NotImplementedError)
|}.

Definition st0 : State := init (Conn 0) (Some (PacketSink 0)) [] false.

(** The same object once the message loop is established. *)
Definition st_rfb : State := set_packet_parser ParseRfb st0.

(** SetEncodings with a count of 3: the encodings 1, -1 and 256. *)
Definition set_encodings_3 : bytes :=
  [x02; x00; x00; x03;
   x00; x00; x00; x01;  xff; xff; xff; xff;  x00; x00; x01; x00].

Definition set_encodings_3_values : list pyval :=
  [VStr "SetEncodings"; VInt 0; VInt 3; VTuple [1; -1; 256]].

Definition set_encodings_3_pieces : list bytes :=
  [[x02]; [x00; x00; x03; x00; x00];
   [x00; x01; xff; xff; xff; xff; x00; x00; x01; x00]].

End Sample.

(** ** The write thread

    [_write] and the loop around it.  What the connection's [write]
    returns is given in advance, call by call; the calls that returned
    are kept with their argument and result. *)

(** [bool(v)] *)
Definition py_truthy (v : pyval) : bool :=
  match v with
  | VNone => false
  | VInt z => negb (z =? 0)
  | VStr s => match s with EmptyString => false | _ => true end
  | VBytes bs => match bs with [] => false | _ => true end
  | VTuple zs => match zs with [] => false | _ => true end
  end.

(** [v[k:]] *)
Definition py_slice_from (v : pyval) (k : Z) : result pyval :=
  match v with
  | VBytes bs => Val (VBytes (slice bs (Some k) None))
  | VStr s =>
      Val (VStr (string_of_list_ascii (slice (list_ascii_of_string s) (Some k) None)))
  | VTuple zs => Val (VTuple (slice zs (Some k) None))
  | VNone | VInt _ => Exc TypeError
  end.

Definition set_output_packetcount v st :=
  mkState (_conn st) (_process_packet_cb st) (_write_queue st) (_buffer st)
    (input_packetcount st) (input_raw_packetcount st) v
    (output_raw_packetcount st) (_closed st) (_packet_parser st)
    (_write_thread st) (_read_thread st) (log st) (trace st).
Definition set_output_raw_packetcount v st :=
  mkState (_conn st) (_process_packet_cb st) (_write_queue st) (_buffer st)
    (input_packetcount st) (input_raw_packetcount st) (output_packetcount st)
    v (_closed st) (_packet_parser st)
    (_write_thread st) (_read_thread st) (log st) (trace st).

(** One call of [con.write] that returned. *)
Record WriteCall := mkWriteCall {
  write_conn : Connection;
  write_arg : pyval;
  write_ret : Z
}.

(** The protocol object with the connection's side of writing. *)
Record Wire := mkWire {
  proto : State;
  answers : list (result Z);     (* what the coming calls of [write] do *)
  wire : list WriteCall          (* the calls that returned, in order *)
}.

Definition W (A : Type) := Wire -> outcome A * Wire.

Definition wret {A} (a : A) : W A := fun w => (Ok a, w).

Definition wbind {A B} (c : W A) (k : A -> W B) : W B :=
  fun w =>
    match c w with
    | (Ok a, w') => k a w'
    | (Raise e, w') => (Raise e, w')
    | (OutOfFuel, w') => (OutOfFuel, w')
    end.

(** A method of the protocol object run on its part of the wire. *)
Definition lift {A} (c : M A) : W A :=
  fun w => let (o, st) := c (proto w) in (o, mkWire st (answers w) (wire w)).

(** A call that has not returned: [get] on an empty queue, or [write]
    once the given answers are used up. *)
Definition blocked {A} : W A := fun w => (OutOfFuel, w).

Declare Scope wire_scope.
Delimit Scope wire_scope with wire.
Notation "x <- c ;; k" := (wbind c (fun x => k))
  (at level 61, c at next level, right associativity) : wire_scope.
Notation "c ;; k" := (wbind c (fun _ => k))
  (at level 61, right associativity) : wire_scope.

Section WriteThread.

Context {X : Externals}.

Local Open Scope wire_scope.

(** [con.write(buf)] *)
Definition con_write (con : Connection) (buf : pyval) : W Z :=
  fun w =>
    match answers w with
    | [] => (OutOfFuel, w)
    | Val k :: rest =>
        (Ok k, mkWire (proto w) rest (wire w ++ [mkWriteCall con buf k]))
    | Exc e :: rest => (Raise e, mkWire (proto w) rest (wire w))
    end.

(** The [while buf and not self._closed:] loop of [_write]; one unit of
    fuel per call of [write]. *)
Fixpoint write_buf (fuel : nat) (con : Connection) (buf : pyval) : W unit :=
  closed <- lift (read _closed) ;;
  if py_truthy buf && negb closed then
    match fuel with
    | O => blocked
    | S fuel' =>
        written <- con_write con buf ;;
        if written =? 0 then write_buf fuel' con buf
        else
          buf' <- lift (eval (py_slice_from buf written)) ;;
          lift (modify (fun st =>
                  set_output_raw_packetcount (output_raw_packetcount st + 1) st)) ;;
          write_buf fuel' con buf'
    end
  else wret tt.

Definition _write (fuel : nat) : W bool :=
  q <- lift (read _write_queue) ;;
  match q with
  | [] => blocked
  | buf :: q' =>
      lift (modify (set_write_queue q')) ;;
      match buf with
      | VNone =>
          lift close ;;
          wret false
      | _ =>
          con <- lift (read _conn) ;;
          match con with
          | None => wret false
          | Some c =>
              write_buf fuel c buf ;;
              lift (modify (fun st =>
                      set_output_packetcount (output_packetcount st + 1) st)) ;;
              wret true
          end
      end
  end.

(** [while not self._closed and callback(): pass] for the write
    thread: [n] bounds the buffers taken off the queue, and with the
    queue empty the thread stays blocked in [get]. *)
Fixpoint write_while (fuel n : nat) : W unit :=
  closed <- lift (read _closed) ;;
  if closed then wret tt
  else
    q <- lift (read _write_queue) ;;
    match q with
    | [] => wret tt
    | _ :: _ =>
        match n with
        | O => blocked
        | S n' =>
            again <- _write fuel ;;
            if again then write_while fuel n' else wret tt
        end
    end.

(** The [except] clauses of [_io_thread_loop].  [OSError] stands for an
    [OSError] raised with arguments, as the connection's calls raise
    them: the handler reads [e.args[0]] to choose what is logged, which
    has no other effect. *)
Definition io_handler (name : string) (e : exn) : M unit :=
  (closed <- read _closed ;;
   if closed then ret tt
   else
     c <- read _conn ;;
     match e with
     | ConnectionClosedException =>
         _connection_lost (name ++ " connection " ++ conn_str c ++ " closed")%string ;;
         ret tt
     | OSError =>
         _internal_error (name ++ " connection " ++ conn_str c ++ " reset")%string
     | _ => close
     end)%py.

(** [_write_thread_loop]: [_io_thread_loop("write", self._write)]. *)
Definition _write_thread_loop (fuel n : nat) : W unit :=
  fun w =>
    match write_while fuel n w with
    | (Raise e, w') => lift (io_handler "write" e) w'
    | r => r
    end.

(** [send] for each packet in turn. *)
Fixpoint send_all (ps : list pyval) : M unit :=
  match ps with
  | [] => ret tt
  | p :: ps' => (send p ;; send_all ps')%py
  end.

(** [get_threads] *)
Definition get_threads (st : State) : list Thread :=
  match _write_thread st with Some t => [t] | None => [] end
  ++ match _read_thread st with Some t => [t] | None => [] end.

(** [queue_size] *)
Definition queue_size (st : State) : Z := len (_write_queue st).

(** The bytes the connection took: of each call, the first
    [write_ret] bytes of the argument. *)
Fixpoint taken (calls : list WriteCall) : bytes :=
  match calls with
  | [] => []
  | call :: calls' =>
      match write_arg call with
      | VBytes bs => firstn (Z.to_nat (write_ret call)) bs
      | _ => []
      end ++ taken calls'
  end.

(** The results [ws] are what [write] may return while [n] bytes are
    left: 0 (try again) or at most what is left, until nothing is. *)
Fixpoint drains (ws : list Z) (n : Z) : bool :=
  match ws with
  | [] => n =? 0
  | k :: ws' => (0 <? n) && (0 <=? k) && (k <=? n) && drains ws' (n - k)
  end.

(** How many of the results [ws] are not 0. *)
Definition progress (ws : list Z) : Z :=
  len (filter (fun k => negb (k =? 0)) ws).

(** The calls of [write] made for the buffer [bs] when the connection
    answers [ws]: each call is given what the previous ones left. *)
Fixpoint write_calls (con : Connection) (bs : bytes) (ws : list Z) : list WriteCall :=
  match ws with
  | [] => []
  | k :: ws' =>
      mkWriteCall con (VBytes bs) k
      :: write_calls con (slice bs (Some k) None) ws'
  end.

(** One call per buffer, each taken whole. *)
Definition whole_writes (con : Connection) (ps : list bytes) : list WriteCall :=
  map (fun p => mkWriteCall con (VBytes p) (len p)) ps.

Definition is_start_write (e : Event) : bool :=
  match e with
  | StartThread name => String.eqb name "write"
  | _ => false
  end.

End WriteThread.

(** ** A stream of messages *)

Section Streams.

Context {K : RfbConst} {X : Externals}.

(** The state after the packet sink was handed each of [vs] in turn. *)
Definition deliver_all (f : Callback) (vs : list (list pyval)) (st : State) : State :=
  fold_left (fun s v => delivered f v s) vs st.

(** [p] is the part already buffered of the first of the messages still
    to come: a proper prefix of it, and nothing when none is to come. *)
Definition pending (p : bytes) (msgs : list (bytes * list pyval)) : Prop :=
  match msgs with
  | [] => p = []
  | (m, _) :: _ => exists q, q <> [] /\ p ++ q = m
  end.


End Streams.

(** A table like the sample one, with the length of ClientCutText read
    as an unsigned integer. *)
Module SampleUnsigned.

Definition table : RfbConst := {|
  SetEncodings := 2;
  ClientCutText := 6;
  CLIENT_PACKET_TYPE_STR := CLIENT_PACKET_TYPE_STR (RfbConst := Sample.table);
  PACKET_STRUCT := fun t =>
    match t with
    | 6 => Some [FB; FB; FB; FB; FI]
    | _ => PACKET_STRUCT (RfbConst := Sample.table) t
    end
|}.

End SampleUnsigned.

(** More sample data: a second message and a stream cut into pieces
    that do not respect the message boundaries. *)
Module SampleStream.

(** PointerEvent: button mask 1 at (10, 20). *)
Definition pointer_event : bytes := [x05; x01; x00; x0a; x00; x14].

Definition pointer_event_values : list pyval :=
  [VStr "PointerEvent"; VInt 1; VInt 10; VInt 20].

Definition messages : list (bytes * list pyval) :=
  [(Sample.set_encodings_3, Sample.set_encodings_3_values);
   (pointer_event, pointer_event_values)].

Definition pieces : list bytes :=
  [firstn 10 Sample.set_encodings_3;
   skipn 10 Sample.set_encodings_3 ++ firstn 2 pointer_event;
   skipn 2 pointer_event].

(** An open protocol object with two buffers and then the exit marker
    in its write queue. *)
Definition st_queued : State :=
  set_write_queue [VBytes [x01; x02; x03; x04; x05]; VBytes [x06]; VNone]
    Sample.st_rfb.

End SampleStream.

(** * Properties *)

Section Properties.

Context {K : RfbConst} {X : Externals} {V : Subclass}.

(** ** The message parser and its decision *)

Lemma parse_rfb_frame (packet : bytes) (st : State) :
  _parse_rfb packet st = run_frame packet (frame packet) st.
Proof.
  unfold _parse_rfb, frame, frame_typed, run_frame, frame_of, bind, eval.
  repeat
    match goal with
    | |- context [match ?o with Val _ => _ | Exc _ => _ end] =>
        destruct o; try reflexivity
    | |- context [match ?o with Some _ => _ | None => _ end] =>
        destruct o; try reflexivity
    | |- context [match ?o with EmptyString => _ | String _ _ => _ end] =>
        destruct o; try reflexivity
    | |- context [if ?c then _ else _] => destruct c; try reflexivity
    end.
Qed.

Lemma len_app {A} (l1 l2 : list A) : len (l1 ++ l2) = len l1 + len l2.
Proof. unfold len. rewrite length_app. lia. Qed.

Lemma len_nonneg {A} (l : list A) : 0 <= len l.
Proof. unfold len. lia. Qed.

Lemma len_pos {A} (l : list A) : l <> [] -> 0 < len l.
Proof. destruct l; [congruence | unfold len; simpl; lia]. Qed.

Lemma slice_upto {A} (l : list A) (k : Z) :
  0 <= k <= len l -> slice l None (Some k) = firstn (Z.to_nat k) l.
Proof.
  intros Hk. unfold slice, slice_bound.
  destruct (k <? 0) eqn:E; [apply Z.ltb_lt in E; lia |].
  rewrite Z.min_l by lia. rewrite Z.sub_0_r. reflexivity.
Qed.

Lemma slice_from {A} (l : list A) (k : Z) :
  0 <= k <= len l -> slice l (Some k) None = skipn (Z.to_nat k) l.
Proof.
  intros Hk. unfold slice, slice_bound.
  destruct (k <? 0) eqn:E; [apply Z.ltb_lt in E; lia |].
  rewrite Z.min_l by lia.
  apply firstn_all2. rewrite length_skipn. unfold len in *. lia.
Qed.

Lemma slice_all_consumed {A} (l : list A) : slice l (Some (len l)) None = [].
Proof.
  rewrite slice_from by (pose proof (len_nonneg l); lia).
  unfold len. rewrite Nat2Z.id. apply skipn_all.
Qed.

Lemma slice_upto_app {A} (l1 l2 : list A) (k : Z) :
  0 <= k <= len l1 ->
  slice (l1 ++ l2) None (Some k) = slice l1 None (Some k).
Proof.
  intros Hk. rewrite !slice_upto; try lia.
  - rewrite firstn_app.
    replace (Z.to_nat k - List.length l1)%nat with 0%nat by (unfold len in *; lia).
    simpl. apply app_nil_r.
  - rewrite len_app. pose proof (len_nonneg l2). lia.
Qed.

Lemma struct_size_nonneg (s : Struct) : 0 <= struct_size s.
Proof. unfold struct_size. lia. Qed.

(** A proper, non-empty prefix of a complete message is not yet a
    message: the decision is to wait. *)
Lemma frame_cons (x : byte) (t : bytes) :
  frame (x :: t) = frame_typed (byte_val x) (x :: t).
Proof. reflexivity. Qed.

Lemma frame_typed_prefix (ptype : Z) (p q : bytes) (values : list pyval) :
  0 < len q ->
  frame_typed ptype (p ++ q) = Message values (len (p ++ q)) ->
  frame_typed ptype p = NeedMore.
Proof.
  intros Hq.
  assert (Hlen : len (p ++ q) = len p + len q) by apply len_app.
  unfold frame_typed.
  destruct (CLIENT_PACKET_TYPE_STR ptype) as [[|a name]|]; try discriminate.
  destruct (PACKET_STRUCT ptype) as [s|]; try discriminate.
  pose proof (struct_size_nonneg s) as Hs.
  destruct (len (p ++ q) <? struct_size s) eqn:E1; [discriminate |].
  apply Z.ltb_ge in E1.
  destruct (len p <? struct_size s) eqn:E2; [reflexivity |].
  apply Z.ltb_ge in E2.
  rewrite slice_upto_app by lia.
  destruct (unpack s (slice p None (Some (struct_size s)))) as [ints|];
    simpl frame_of; try discriminate.
  destruct (setitem0 (map VInt ints) (VStr (String a name))) as [vals|];
    simpl frame_of; try discriminate.
  destruct (ptype =? SetEncodings).
  - destruct (getitem vals 2) as [v|]; simpl frame_of; try discriminate.
    destruct (as_int v) as [N|]; simpl frame_of; try discriminate.
    destruct (len (p ++ q) <? _) eqn:E3; [discriminate |].
    destruct (unpack (repeat Fi (Z.to_nat N)) _); simpl frame_of; try discriminate.
    intros H. injection H as _ Hsz.
    destruct (len p <? _) eqn:E4; [reflexivity |].
    apply Z.ltb_ge in E4. lia.
  - destruct (ptype =? ClientCutText).
    + destruct (getitem vals 4) as [v|]; simpl frame_of; try discriminate.
      destruct (as_int v) as [l|]; simpl frame_of; try discriminate.
      destruct (len (p ++ q) <? _) eqn:E3; [discriminate |].
      intros H. injection H as _ Hsz.
      destruct (len p <? _) eqn:E4; [reflexivity |].
      apply Z.ltb_ge in E4. lia.
    + intros H. injection H as _ Hsz. lia.
Qed.

(** A proper, non-empty prefix of a complete message is not yet a
    message: the decision is to wait. *)
Lemma frame_prefix (p q : bytes) (values : list pyval) :
  p <> [] -> q <> [] ->
  complete_message (p ++ q) values ->
  frame p = NeedMore.
Proof.
  intros Hp Hq. unfold complete_message.
  destruct p as [|x p']; [congruence |].
  change ((x :: p') ++ q) with (x :: (p' ++ q)) at 1.
  rewrite !frame_cons. change (x :: (p' ++ q)) with ((x :: p') ++ q).
  apply frame_typed_prefix. now apply len_pos.
Qed.

Lemma complete_message_nonempty (m : bytes) (values : list pyval) :
  complete_message m values -> m <> [].
Proof. intros H ->. discriminate H. Qed.

Lemma parse_rfb_prefix (p q : bytes) (values : list pyval) (st : State) :
  p <> [] -> q <> [] ->
  complete_message (p ++ q) values ->
  _parse_rfb p st = (Ok 0, st).
Proof.
  intros Hp Hq Hm. rewrite parse_rfb_frame.
  rewrite (frame_prefix Hp Hq Hm). reflexivity.
Qed.

Lemma dispatch_delivers (values : list pyval) (size : Z) (st : State) (f : Callback) :
  _process_packet_cb st = Some f ->
  dispatch values size st = (Ok size, delivered f values st).
Proof.
  intros Hcb. unfold dispatch, call_process_packet_cb, bind, modify, read, emit, ret.
  cbn. rewrite Hcb. reflexivity.
Qed.

Lemma parse_rfb_complete (m : bytes) (values : list pyval) (st : State) (f : Callback) :
  complete_message m values ->
  _process_packet_cb st = Some f ->
  _parse_rfb m st = (Ok (len m), delivered f values st).
Proof.
  intros Hm Hcb. rewrite parse_rfb_frame, Hm. simpl run_frame.
  now apply dispatch_delivers.
Qed.

(** ** The reader's loop on a message arriving in pieces *)

Lemma parse_loop_empty (fuel : nat) (st : State) :
  _buffer st = [] -> parse_loop fuel st = (Ok tt, st).
Proof.
  intros Hb. destruct fuel; simpl; unfold bind, read; rewrite Hb; reflexivity.
Qed.

Lemma parse_loop_step (fuel : nat) (st : State) (x : byte) (t : bytes) :
  _buffer st = x :: t ->
  parse_loop (S fuel) st =
  match packet_parser (_packet_parser st) (x :: t) st with
  | (Ok consumed, st') =>
      if consumed =? 0 then (Ok tt, st')
      else parse_loop fuel (set_buffer (slice (_buffer st') (Some consumed) None) st')
  | (Raise e, st') => (Raise e, st')
  | (OutOfFuel, st') => (OutOfFuel, st')
  end.
Proof.
  intros Hb. cbn [parse_loop]. unfold bind at 1, read at 1. rewrite Hb.
  unfold bind at 1, read at 1. unfold bind at 1.
  destruct (packet_parser (_packet_parser st) (x :: t) st) as [[c| |] st'];
    try reflexivity.
  destruct (c =? 0); reflexivity.
Qed.

Lemma parse_loop_wait (fuel : nat) (st : State) (q : bytes) (values : list pyval) :
  (1 <= fuel)%nat ->
  q <> [] ->
  complete_message (_buffer st ++ q) values ->
  _packet_parser st = ParseRfb ->
  parse_loop fuel st = (Ok tt, st).
Proof.
  intros Hf Hq Hm Hp.
  destruct (_buffer st) as [|x p'] eqn:Hb; [now apply parse_loop_empty |].
  destruct fuel as [|fuel']; [lia |].
  simpl. unfold bind, read. rewrite Hb, Hp. simpl packet_parser.
  rewrite (@parse_rfb_prefix (x :: p') q values st); [reflexivity | discriminate | assumption | assumption].
Qed.

Lemma parse_loop_complete (fuel : nat) (st : State) (values : list pyval) (f : Callback) :
  (1 <= fuel)%nat ->
  complete_message (_buffer st) values ->
  _packet_parser st = ParseRfb ->
  _process_packet_cb st = Some f ->
  parse_loop fuel st = (Ok tt, set_buffer [] (delivered f values st)).
Proof.
  intros Hf Hm Hp Hcb.
  pose proof (complete_message_nonempty Hm) as Hne.
  destruct (_buffer st) as [|x m'] eqn:Hb; [congruence |].
  destruct fuel as [|fuel']; [lia |].
  simpl. unfold bind at 1 2 3, read. rewrite Hb, Hp. simpl packet_parser.
  rewrite (parse_rfb_complete st Hm Hcb).
  destruct (len (x :: m') =? 0) eqn:E.
  - apply Z.eqb_eq in E. unfold len in E. simpl in E. lia.
  - unfold bind, modify.
    replace (slice (_buffer (delivered f values st)) (Some (len (x :: m'))) None)
      with (@nil byte).
    + now apply parse_loop_empty.
    + cbn [delivered _buffer set_trace set_input_packetcount].
      rewrite Hb. symmetry. apply slice_all_consumed.
Qed.

Lemma absorb_fields (buf : bytes) (st : State) :
  _buffer (absorb buf st) = _buffer st ++ buf /\
  _conn (absorb buf st) = _conn st /\
  _closed (absorb buf st) = _closed st /\
  _packet_parser (absorb buf st) = _packet_parser st /\
  _process_packet_cb (absorb buf st) = _process_packet_cb st /\
  input_packetcount (absorb buf st) = input_packetcount st /\
  sink_packets (trace (absorb buf st)) = sink_packets (trace st) /\
  notifications (trace (absorb buf st)) = notifications (trace st).
Proof.
  unfold absorb. destruct (log st); cbn; repeat split; try reflexivity.
  - induction (trace st) as [|[] t IH]; cbn; congruence.
  - induction (trace st) as [|[| |[]| | | | |] t IH]; cbn; congruence.
Qed.

Lemma read_data (fuel : nat) (buf : bytes) (st : State) (c : Connection) :
  _conn st = Some c -> buf <> [] ->
  _read fuel (Val buf) st = (parse_loop fuel ;; ret (Some true)) (absorb buf st).
Proof.
  intros Hc Hne. destruct buf as [|x t]; [congruence |].
  unfold _read, absorb, bind at 1 2 3 4 5, read, eval, emit, modify, pass, ret.
  rewrite Hc. destruct (log st) eqn:Hl; cbn; reflexivity.
Qed.

Lemma absorb_all_fields (chunks : list bytes) (st : State) :
  input_packetcount (absorb_all chunks st) = input_packetcount st /\
  _packet_parser (absorb_all chunks st) = _packet_parser st /\
  sink_packets (trace (absorb_all chunks st)) = sink_packets (trace st) /\
  notifications (trace (absorb_all chunks st)) = notifications (trace st).
Proof.
  revert st. induction chunks as [|ch chunks IH]; intros st; [now repeat split |].
  simpl. destruct (IH (absorb ch st)) as (H1 & H2 & H3 & H4).
  destruct (absorb_fields ch st) as (_ & _ & _ & G2 & _ & G1 & G3 & G4).
  repeat split; congruence.
Qed.

Lemma read_while_message (fuel : nat) (values : list pyval) (c : Connection) (f : Callback)
    (chunks : list bytes) :
  (1 <= fuel)%nat ->
  chunks <> [] ->
  Forall (fun ch => ch <> []) chunks ->
  forall st,
    complete_message (_buffer st ++ List.concat chunks) values ->
    _closed st = false ->
    _conn st = Some c ->
    _process_packet_cb st = Some f ->
    _packet_parser st = ParseRfb ->
    read_while fuel (map Val chunks) st
    = (Ok tt, set_buffer [] (delivered f values (absorb_all chunks st))).
Proof.
  intros Hf Hne Hall.
  induction chunks as [|ch rest IH]; [congruence |].
  intros st Hm Hcl Hc Hcb Hp.
  inversion Hall as [|? ? Hch Hrest]; subst.
  destruct (absorb_fields ch st) as (Ab & Ac & Acl & Ap & Acb & _).
  simpl map. simpl read_while. unfold bind at 1, read. rewrite Hcl.
  unfold bind at 1. rewrite (read_data fuel st Hc Hch).
  destruct rest as [|ch2 rest'].
  - simpl in Hm. rewrite app_nil_r in Hm.
    unfold bind at 1.
    rewrite (@parse_loop_complete fuel (absorb ch st) values f); try congruence.
    reflexivity.
  - assert (Hq : List.concat (ch2 :: rest') <> []).
    { inversion Hrest; subst. simpl. destruct ch2; [congruence | discriminate]. }
    unfold bind at 1.
    rewrite (@parse_loop_wait fuel (absorb ch st) (List.concat (ch2 :: rest')) values);
      try congruence.
    + cbn [ret]. apply IH; try congruence; try assumption.
      rewrite Ab, <- app_assoc. exact Hm.
    + rewrite Ab, <- app_assoc. exact Hm.
Qed.

Lemma sink_packets_app (t1 t2 : list Event) :
  sink_packets (t1 ++ t2) = sink_packets t1 ++ sink_packets t2.
Proof.
  induction t1 as [|[] t1 IH]; cbn; congruence.
Qed.

Lemma notifications_app (t1 t2 : list Event) :
  notifications (t1 ++ t2) = notifications t1 ++ notifications t2.
Proof.
  induction t1 as [|[| |[]| | | | |] t1 IH]; cbn; congruence.
Qed.

(** C3. Fragmentation invariance.  A complete message read in any
    number of non-empty pieces by the read thread is dispatched exactly
    as when it is read in one piece: both runs end normally, hand the
    packet sink the same single packet (the decoded values of the
    message) after what it had received before, consume every byte of
    the message, count one more input packet and stay in the message
    loop. *)
Theorem fragmentation_invariance
    (fuel : nat) (m : bytes) (values : list pyval) (chunks : list bytes)
    (st : State) (c : Connection) (f : Callback) :
  (1 <= fuel)%nat ->
  complete_message m values ->
  List.concat chunks = m ->
  Forall (fun ch => ch <> []) chunks ->
  _buffer st = [] ->
  _closed st = false ->
  _conn st = Some c ->
  _process_packet_cb st = Some f ->
  _packet_parser st = ParseRfb ->
  let whole := read_while fuel [Val m] st in
  let pieces := read_while fuel (map Val chunks) st in
  fst whole = Ok tt /\ fst pieces = Ok tt /\
  sink_packets (trace (snd whole)) = sink_packets (trace st) ++ [values] /\
  sink_packets (trace (snd pieces)) = sink_packets (trace (snd whole)) /\
  _buffer (snd whole) = [] /\ _buffer (snd pieces) = [] /\
  input_packetcount (snd whole) = input_packetcount st + 1 /\
  input_packetcount (snd pieces) = input_packetcount (snd whole) /\
  _packet_parser (snd whole) = ParseRfb /\
  _packet_parser (snd pieces) = ParseRfb.
Proof.
  intros Hf Hm Hcat Hall Hb Hcl Hc Hcb Hp whole pieces.
  pose proof (complete_message_nonempty Hm) as Hne.
  assert (Hchunks : chunks <> []) by (intros ->; simpl in Hcat; congruence).
  assert (Hw : whole = (Ok tt, set_buffer [] (delivered f values (absorb_all [m] st)))).
  { apply (@read_while_message fuel values c f [m]); try assumption.
    - discriminate.
    - constructor; [assumption | constructor].
    - rewrite Hb. simpl. now rewrite app_nil_r. }
  assert (Hq : pieces = (Ok tt, set_buffer [] (delivered f values (absorb_all chunks st)))).
  { apply (@read_while_message fuel values c f chunks); try assumption.
    rewrite Hb, Hcat. exact Hm. }
  rewrite Hw, Hq. cbn [fst snd].
  destruct (absorb_all_fields [m] st) as (W1 & W2 & W3 & _).
  destruct (absorb_all_fields chunks st) as (P1 & P2 & P3 & _).
  cbn [set_buffer delivered set_trace set_input_packetcount trace _buffer
       input_packetcount _packet_parser].
  rewrite !sink_packets_app, W1, W2, W3, P1, P2, P3.
  repeat split; assumption.
Qed.

(** C5. Too few bytes are not an error.  When the buffered bytes are a
    proper prefix of a complete message, the message parser (called, as
    the reader does, on a non-empty buffer) returns 0 and leaves the
    whole protocol state as it was: no packet-sink call, same active
    parser, same buffer; the reader's loop over such a buffer, empty or
    not, ends at once with the state unchanged, so the bytes are parsed
    again at the next read.  The handshake parser does the same below 12
    bytes. *)
Theorem truncated_message_waits
    (p q : bytes) (values : list pyval) (st : State) :
  q <> [] ->
  complete_message (p ++ q) values ->
  (p <> [] -> _parse_rfb p st = (Ok 0, st)) /\
  (forall fuel, (1 <= fuel)%nat -> _buffer st = p -> _packet_parser st = ParseRfb ->
                parse_loop fuel st = (Ok tt, st)) /\
  (forall hs, len hs < 12 -> _parse_protocol_handshake hs st = (Ok 0, st)).
Proof.
  intros Hq Hm. repeat split.
  - intros Hp. now apply parse_rfb_prefix with (q := q) (values := values).
  - intros fuel Hf Hb Hp. apply parse_loop_wait with (q := q) (values := values);
      try assumption. now rewrite Hb.
  - intros hs Hlen. unfold _parse_protocol_handshake.
    destruct (len hs <? 12) eqn:E; [reflexivity |].
    apply Z.ltb_ge in E. lia.
Qed.

(** ** SetEncodings: the counted trailer *)

Lemma slice_mid {A} (l : list A) (i j : Z) :
  0 <= i <= j -> j <= len l ->
  slice l (Some i) (Some j) = firstn (Z.to_nat (j - i)) (skipn (Z.to_nat i) l).
Proof.
  intros Hi Hj. unfold slice, slice_bound.
  destruct (i <? 0) eqn:E1; [apply Z.ltb_lt in E1; lia |].
  destruct (j <? 0) eqn:E2; [apply Z.ltb_lt in E2; lia |].
  rewrite !Z.min_l by lia. reflexivity.
Qed.

Lemma to_nat_struct_size (s : Struct) : Z.to_nat (struct_size s) = struct_size_nat s.
Proof. unfold struct_size. apply Nat2Z.id. Qed.

Lemma struct_size_repeat_Fi (n : nat) : struct_size (repeat Fi n) = 4 * Z.of_nat n.
Proof.
  unfold struct_size. induction n as [|n IH]; [reflexivity |].
  simpl repeat. simpl struct_size_nat. lia.
Qed.

Lemma unpack_fields_repeat_Fi (n : nat) (data : bytes) :
  unpack_fields (repeat Fi n) data = be_int32s n data.
Proof.
  revert data. induction n as [|n IH]; intros data; [reflexivity |].
  simpl. now rewrite IH.
Qed.

Lemma be_int32s_length (n : nat) (data : bytes) : List.length (be_int32s n data) = n.
Proof.
  revert data. induction n as [|n IH]; intros data; simpl; [reflexivity | now rewrite IH].
Qed.

Lemma unpack_exact (s : Struct) (data : bytes) :
  len data = struct_size s -> unpack s data = Val (unpack_fields s data).
Proof.
  intros H. unfold unpack. now rewrite H, Z.eqb_refl.
Qed.

Lemma len_firstn {A} (n : nat) (l : list A) :
  Z.of_nat n <= len l -> len (firstn n l) = Z.of_nat n.
Proof.
  unfold len. intros H. rewrite length_firstn. lia.
Qed.

(** C6. SetEncodings framing.  For a buffer whose type byte is
    SetEncodings, with [s] the fixed layout of that type: the parser
    returns 0 with the state untouched while fewer than [s.size] bytes
    are buffered, and, once the fixed part declares the count [N] in
    its third field, while fewer than [s.size + 4*N] bytes are buffered;
    with at least that many it returns exactly [s.size + 4*N] and hands
    the packet sink one packet: the type name, the remaining fixed
    fields, and last the tuple of the [N] big-endian 32-bit integers
    read from the [4*N] bytes after the fixed part. *)
Theorem set_encodings_framing
    (x : byte) (rest : bytes) (a : Ascii.ascii) (name : string) (s : Struct)
    (st : State) :
  let packet := x :: rest in
  let fixed := unpack_fields s (firstn (struct_size_nat s) packet) in
  byte_val x = SetEncodings ->
  CLIENT_PACKET_TYPE_STR SetEncodings = Some (String a name) ->
  PACKET_STRUCT SetEncodings = Some s ->
  (len packet < struct_size s -> _parse_rfb packet st = (Ok 0, st)) /\
  (forall N : Z,
      struct_size s <= len packet ->
      nth_error fixed 2 = Some N ->
      0 <= N ->
      (len packet < struct_size s + 4 * N -> _parse_rfb packet st = (Ok 0, st)) /\
      (forall f,
          struct_size s + 4 * N <= len packet ->
          _process_packet_cb st = Some f ->
          let trailer := firstn (Z.to_nat (4 * N)) (skipn (struct_size_nat s) packet) in
          let encodings := be_int32s (Z.to_nat N) trailer in
          len encodings = N /\
          _parse_rfb packet st =
          (Ok (struct_size s + 4 * N),
           delivered f (VStr (String a name) :: map VInt (tl fixed) ++ [VTuple encodings]) st))).
Proof.
  intros packet fixed Hx Hname Hs.
  pose proof (struct_size_nonneg s) as Hs0.
  assert (Hframe : frame packet = frame_typed SetEncodings packet).
  { unfold packet. rewrite frame_cons. now rewrite Hx. }
  split.
  - intros Hlen. rewrite parse_rfb_frame, Hframe. unfold frame_typed.
    rewrite Hname, Hs.
    destruct (len packet <? struct_size s) eqn:E; [reflexivity |].
    apply Z.ltb_ge in E. lia.
  - intros N Hlen Hfixed HN.
    assert (Hsz : struct_size (repeat Fi (Z.to_nat N)) = 4 * N).
    { rewrite struct_size_repeat_Fi. lia. }
    assert (Hframe' :
      frame packet =
      if len packet <? struct_size s + 4 * N then NeedMore
      else frame_of (unpack (repeat Fi (Z.to_nat N))
                       (slice packet (Some (struct_size s)) (Some (struct_size s + 4 * N))))
             (fun encodings =>
                Message ((VStr (String a name) :: map VInt (tl fixed)) ++ [VTuple encodings])
                        (struct_size s + 4 * N))).
    { rewrite Hframe. unfold frame_typed. rewrite Hname, Hs.
      destruct (len packet <? struct_size s) eqn:E; [apply Z.ltb_lt in E; lia |].
      rewrite slice_upto by lia.
      rewrite to_nat_struct_size. fold fixed.
      rewrite unpack_exact
        by (apply len_firstn; unfold struct_size in Hlen; exact Hlen).
      fold fixed. simpl frame_of.
      destruct fixed as [|v0 [|v1 [|v2 fixed']]]; try discriminate.
      simpl in Hfixed. injection Hfixed as ->.
      rewrite Z.eqb_refl. simpl frame_of. rewrite Hsz. reflexivity. }
    split.
    + intros Hshort. rewrite parse_rfb_frame, Hframe'.
      destruct (len packet <? struct_size s + 4 * N) eqn:E; [reflexivity |].
      apply Z.ltb_ge in E. lia.
    + intros f Hfull Hcb trailer encodings. split.
      * unfold len, encodings. rewrite be_int32s_length. lia.
      * rewrite parse_rfb_frame, Hframe'.
        destruct (len packet <? struct_size s + 4 * N) eqn:E;
          [apply Z.ltb_lt in E; lia |].
        rewrite slice_mid by lia.
        replace (struct_size s + 4 * N - struct_size s) with (4 * N) by lia.
        rewrite to_nat_struct_size. fold trailer.
        rewrite unpack_exact.
        -- simpl frame_of. rewrite unpack_fields_repeat_Fi. fold encodings.
           simpl run_frame. now apply dispatch_delivers.
        -- rewrite Hsz. unfold trailer. rewrite len_firstn; [lia |].
           unfold len in *. rewrite length_skipn. unfold struct_size in *. lia.
Qed.

(** ** Unknown message types and the discard parser *)

Lemma parse_loop_discard (fuel : nat) (st : State) :
  (1 <= fuel)%nat ->
  _packet_parser st = ParseInvalid ->
  parse_loop fuel st = (Ok tt, set_buffer [] st).
Proof.
  intros Hf Hp.
  destruct (_buffer st) as [|x t] eqn:Hb.
  - rewrite parse_loop_empty by assumption.
    destruct st; simpl in *; subst; reflexivity.
  - destruct fuel as [|fuel']; [lia |].
    simpl. unfold bind at 1 2 3, read. rewrite Hb, Hp. simpl packet_parser.
    unfold _parse_invalid, ret.
    destruct (len (x :: t) =? 0) eqn:E.
    + apply Z.eqb_eq in E. unfold len in E. simpl in E. lia.
    + unfold bind, modify. rewrite Hb, slice_all_consumed.
      now apply parse_loop_empty.
Qed.

Lemma silent_refl (st : State) : _packet_parser st = ParseInvalid -> silent st st.
Proof. intros H. now repeat split. Qed.

Lemma silent_trans (st1 st2 st3 : State) :
  silent st1 st2 -> silent st2 st3 -> silent st1 st3.
Proof.
  intros (A1 & A2 & A3 & A4) (B1 & B2 & B3 & B4). repeat split; congruence.
Qed.

Lemma read_discard (fuel : nat) (buf : bytes) (st : State) :
  (1 <= fuel)%nat ->
  _packet_parser st = ParseInvalid ->
  exists res st', _read fuel (Val buf) st = (Ok res, st') /\ silent st st'.
Proof.
  intros Hf Hp.
  destruct (_conn st) as [c|] eqn:Hc.
  - destruct buf as [|x t].
    + unfold _read, bind, read, eval, timeout_add, emit, modify, ret. rewrite Hc.
      eexists _, _. split; [reflexivity |].
      unfold silent. cbn. rewrite notifications_app, sink_packets_app. cbn.
      rewrite !app_nil_r. now repeat split.
    + rewrite (@read_data fuel (x :: t) st c) by (assumption || discriminate).
      destruct (absorb_fields (x :: t) st) as (_ & _ & _ & Ap & _ & A1 & A2 & A3).
      unfold bind. rewrite parse_loop_discard by congruence.
      eexists _, _. split; [reflexivity |].
      unfold silent.
      cbn [set_buffer trace input_packetcount _packet_parser].
      repeat split; congruence.
  - unfold _read, bind, read. rewrite Hc.
    eexists _, _. split; [reflexivity | now apply silent_refl].
Qed.

(** Once the discard parser is active, whatever the connection
    delivers, the read thread hands nothing to the packet sink. *)
Lemma read_while_discard (fuel : nat) (chunks : list bytes) :
  (1 <= fuel)%nat ->
  forall st,
    _packet_parser st = ParseInvalid ->
    exists st', read_while fuel (map Val chunks) st = (Ok tt, st') /\ silent st st'.
Proof.
  intros Hf. induction chunks as [|ch chunks IH]; intros st Hp.
  - exists st. split; [reflexivity | now apply silent_refl].
  - simpl. unfold bind at 1, read.
    destruct (_closed st).
    + exists st. split; [reflexivity | now apply silent_refl].
    + destruct (@read_discard fuel ch st Hf Hp) as (res & st1 & Hr & Hs).
      unfold bind. rewrite Hr.
      destruct res as [[|]|].
      * destruct (IH st1) as (st2 & Hr2 & Hs2); [apply Hs |].
        exists st2. split; [exact Hr2 | now apply silent_trans with st1].
      * exists st1. now split.
      * exists st1. now split.
Qed.

(** C4. Unknown message type.  When the type byte has no entry in the
    table of names or in the table of layouts, the message parser
    returns 0, makes the discard parser the active one and schedules
    exactly one notification for the packet sink, the INVALID packet
    carrying the message and the offending bytes (with the delayed
    disconnect after it); from then on, whatever bytes are buffered and
    whatever the connection delivers, the read thread ends its reads
    normally without addressing anything to the packet sink and without
    counting an input packet. *)
Theorem unknown_type_discards
    (x : byte) (rest : bytes) (st : State) (f : Callback) :
  CLIENT_PACKET_TYPE_STR (byte_val x) = None \/ PACKET_STRUCT (byte_val x) = None ->
  _process_packet_cb st = Some f ->
  let packet := x :: rest in
  let st' := snd (_parse_rfb packet st) in
  exists msg,
    _parse_rfb packet st =
    (Ok 0,
     set_trace (trace st ++ [IdleAdd (DSink (Some f) [INVALID; VStr msg; VBytes packet]);
                             TimeoutAdd 1000 (DConnectionLost msg)])
       (set_packet_parser ParseInvalid st)) /\
    notifications (trace st') =
    notifications (trace st) ++ [[INVALID; VStr msg; VBytes packet]] /\
    _packet_parser st' = ParseInvalid /\
    forall fuel chunks,
      (1 <= fuel)%nat ->
      exists st'',
        read_while fuel (map Val chunks) st' = (Ok tt, st'') /\
        notifications (trace st'') = notifications (trace st') /\
        sink_packets (trace st'') = sink_packets (trace st') /\
        input_packetcount st'' = input_packetcount st' /\
        _packet_parser st'' = ParseInvalid.
Proof.
  intros Hunknown Hcb packet st'.
  assert (Hf : exists msg, frame packet = Unknown msg).
  { unfold packet. rewrite frame_cons. unfold frame_typed.
    destruct (CLIENT_PACKET_TYPE_STR (byte_val x)) as [[|a name]|];
      try (eexists; reflexivity).
    destruct Hunknown as [H | H]; [discriminate |].
    rewrite H. eexists; reflexivity. }
  destruct Hf as (msg & Hf). exists msg.
  assert (Hrun : _parse_rfb packet st =
    (Ok 0,
     set_trace (trace st ++ [IdleAdd (DSink (Some f) [INVALID; VStr msg; VBytes packet]);
                             TimeoutAdd 1000 (DConnectionLost msg)])
       (set_packet_parser ParseInvalid st))).
  { rewrite parse_rfb_frame, Hf.
    unfold run_frame, invalid, idle_add, timeout_add, emit, bind, modify, read, ret.
    cbn. rewrite Hcb, <- app_assoc. reflexivity. }
  subst st'. rewrite Hrun. cbn [snd].
  split; [reflexivity |]. split.
  { cbn. rewrite notifications_app. reflexivity. }
  split; [reflexivity |].
  intros fuel chunks Hfuel.
  destruct (@read_while_discard fuel chunks Hfuel
              (set_trace (trace st ++ [IdleAdd (DSink (Some f) [INVALID; VStr msg; VBytes packet]);
                                       TimeoutAdd 1000 (DConnectionLost msg)])
                 (set_packet_parser ParseInvalid st)))
    as (st'' & Hr & Hs1 & Hs2 & Hs3 & Hs4); [reflexivity |].
  exists st''. repeat split; assumption.
Qed.

(** ** The protocol handshake *)

Lemma supported_version_field (packet : bytes) :
  firstn 12 packet = b "RFB 003.008" ++ [newline] ->
  12 <= len packet /\
  startswith packet (b "RFB ") = true /\
  slice packet (Some 4) (Some 11) = b "003.008".
Proof.
  intros H. rewrite <- (firstn_skipn 12 packet). rewrite H.
  set (r := skipn 12 packet).
  assert (Hlen : len ((b "RFB 003.008" ++ [newline]) ++ r) = 12 + len r).
  { rewrite len_app. reflexivity. }
  pose proof (len_nonneg r) as Hr.
  split; [lia |]. split; [reflexivity |].
  rewrite slice_mid by lia. reflexivity.
Qed.

(** C1. Handshake accepted.  On a buffer whose first 12 bytes are
    [RFB 003.008\n] the handshake parser does nothing but call the
    security-negotiation extension point and return 12: it ends as
    [handshake_complete] followed by [return 12] does, so when the
    extension point returns, the parser returns 12 in the state the
    extension point left, with no invalid signalled by the parser.  On
    fewer than 12 bytes it returns 0 and changes nothing. *)
Theorem handshake_accepts_supported_version (packet : bytes) (st : State) :
  (firstn 12 packet = b "RFB 003.008" ++ [newline] ->
   _parse_protocol_handshake packet st = (handshake_complete ;; ret 12) st /\
   forall st', handshake_complete st = (Ok tt, st') ->
               _parse_protocol_handshake packet st = (Ok 12, st')) /\
  (len packet < 12 -> _parse_protocol_handshake packet st = (Ok 0, st)).
Proof.
  split.
  - intros H. destruct (supported_version_field packet H) as (Hlen & Hstart & Hver).
    assert (Heq : _parse_protocol_handshake packet st = (handshake_complete ;; ret 12) st).
    { unfold _parse_protocol_handshake.
      destruct (len packet <? 12) eqn:E; [apply Z.ltb_lt in E; lia |].
      rewrite Hstart, Hver. reflexivity. }
    split; [exact Heq |].
    intros st' Hc. rewrite Heq. unfold bind. rewrite Hc. reflexivity.
  - intros Hlen. unfold _parse_protocol_handshake.
    destruct (len packet <? 12) eqn:E; [reflexivity |].
    apply Z.ltb_ge in E. lia.
Qed.

Lemma tuple_int_outcome (pieces : list bytes) :
  (exists v, tuple_int pieces = Val v) \/ tuple_int pieces = Exc ValueError.
Proof.
  induction pieces as [|x t IH]; [left; now exists [] |].
  simpl. unfold py_int.
  destruct (match strip x with [] => None | _ => _ end) as [z|]; [| now right].
  destruct IH as [(v & ->) | ->]; [left; now exists (z :: v) | now right].
Qed.

(** The version-mismatch branch: the reply is built by adding a [str]
    to the packed header, which raises before anything is sent or
    signalled. *)
Lemma handshake_mismatch_raises (packet : bytes) (st : State) (version : list Z) :
  12 <= len packet ->
  startswith packet (b "RFB ") = true ->
  tuple_int (split "."%byte (slice packet (Some 4) (Some 11))) = Val version ->
  version <> PROTOCOL_VERSION ->
  _parse_protocol_handshake packet st = (Raise TypeError, st).
Proof.
  intros Hlen Hstart Hver Hne. unfold _parse_protocol_handshake.
  destruct (len packet <? 12) eqn:E; [apply Z.ltb_lt in E; lia |].
  rewrite Hstart, Hver. cbn [negb]. unfold bind at 1, eval at 1, tuple_eqb.
  destruct (list_eq_dec Z.eq_dec version PROTOCOL_VERSION); [contradiction |].
  reflexivity.
Qed.

Lemma handshake_unparsable_raises (packet : bytes) (st : State) :
  12 <= len packet ->
  startswith packet (b "RFB ") = true ->
  tuple_int (split "."%byte (slice packet (Some 4) (Some 11))) = Exc ValueError ->
  _parse_protocol_handshake packet st = (Raise ValueError, st).
Proof.
  intros Hlen Hstart Hver. unfold _parse_protocol_handshake.
  destruct (len packet <? 12) eqn:E; [apply Z.ltb_lt in E; lia |].
  rewrite Hstart, Hver. reflexivity.
Qed.

(** C2. Version mismatch: what the code does on [RFB 003.003\n].  The
    handshake parser raises [TypeError] with the protocol state
    untouched: no reply is queued, no INVALID notification and no
    delayed disconnect are scheduled, and 0 is not returned.  In the
    read thread the exception ends the loop in [close]: from a fresh
    protocol object the only effects are those of [close], and the
    write queue never holds an error reply. *)
Theorem handshake_003_003_raises (st : State) (fuel : nat) :
  let hs := b "RFB 003.003" ++ [newline] in
  _parse_protocol_handshake hs st = (Raise TypeError, st) /\
  _read_thread_loop (S fuel) [Val hs] (init (Conn 0) (Some (PacketSink 0)) [] false)
  = (Ok tt,
     mkState None (Some (PacketSink 0)) exit_queue hs 0 1 0 0 true
       ParseProtocolHandshake None (Some ReadThread) false
       [ConnClose (Conn 0); ForceFlushQueue [];
        SinkCall (PacketSink 0) [CONNECTION_LOST]; IdleAdd DClean]).
Proof.
  split; reflexivity.
Qed.

(** C7. Raising out of the handshake parser.  For every input of 12
    bytes or more that starts with [RFB ] and whose version field is
    not read as (3, 8), the handshake parser raises and leaves the
    protocol state untouched, so neither [invalid] nor [invalid_header]
    is gone through: [TypeError] when the field is a version other than
    (3, 8), [ValueError] when it is not made of integers. *)
Theorem handshake_other_versions_raise (packet : bytes) (st : State) :
  12 <= len packet ->
  startswith packet (b "RFB ") = true ->
  tuple_int (split "."%byte (slice packet (Some 4) (Some 11))) <> Val PROTOCOL_VERSION ->
  (exists version,
      tuple_int (split "."%byte (slice packet (Some 4) (Some 11))) = Val version /\
      _parse_protocol_handshake packet st = (Raise TypeError, st)) \/
  (tuple_int (split "."%byte (slice packet (Some 4) (Some 11))) = Exc ValueError /\
   _parse_protocol_handshake packet st = (Raise ValueError, st)).
Proof.
  intros Hlen Hstart Hne.
  destruct (tuple_int_outcome (split "."%byte (slice packet (Some 4) (Some 11))))
    as [(v & Hv) | Hv].
  - left. exists v. split; [exact Hv |].
    apply handshake_mismatch_raises with (version := v); try assumption.
    intros ->. contradiction.
  - right. split; [exact Hv |]. now apply handshake_unparsable_raises.
Qed.

(** ** [send] and [close] *)

Lemma close_sets_closed (st : State) : _closed (snd (close st)) = true.
Proof.
  destruct st as [conn cb wq buf ipc irc opc orc [|] pp wt rt lg tr];
    [reflexivity |].
  destruct conn, cb, lg; reflexivity.
Qed.

(** C8. [send] after [close].  On a protocol object whose closed flag
    is set, [send] returns normally and the whole state, write queue,
    write thread and trace of outside calls included, is what it was;
    [close] sets the flag, so this holds for every [send] after a
    [close]. *)
Theorem send_after_close_is_noop (packet : pyval) (st : State) :
  (_closed st = true -> send packet st = (Ok tt, st)) /\
  send packet (snd (close st)) = (Ok tt, snd (close st)).
Proof.
  assert (H : forall s, _closed s = true -> send packet s = (Ok tt, s)).
  { intros s Hs. unfold send, bind, read. rewrite Hs. reflexivity. }
  split; [apply H |]. apply H, close_sets_closed.
Qed.

(** *** [close] called twice *)

(** The statement-by-statement reading of [close] is [close]. *)
Lemma run_close_is_close (st : State) :
  run_close 9 AtTest st = (Ended (fst (close st)), snd (close st)).
Proof.
  destruct st as [conn cb wq buf ipc irc opc orc [|] pp wt rt lg tr];
    [vm_compute; reflexivity |].
  destruct conn, cb, lg; vm_compute; reflexivity.
Qed.

(** Nine statements end [close] wherever the thread stands. *)
Lemma run_close_saturated (pc : close_pc) (st : State) :
  run_close 10 pc st = run_close 9 pc st.
Proof.
  destruct st as [conn cb wq buf ipc irc opc orc cl pp wt rt lg tr].
  destruct pc as [| | |[c|]| | | | | |o];
    destruct cl, conn, cb, lg; vm_compute; reflexivity.
Qed.

Lemma close_step_keeps_closed (pc : close_pc) (st : State) :
  _closed st = true -> _closed (snd (close_step pc st)) = true.
Proof.
  destruct st as [conn cb wq buf ipc irc opc orc cl pp wt rt lg tr].
  simpl. intros ->.
  destruct pc as [| | |[c|]| | | | | |o]; try reflexivity.
  - destruct cb; reflexivity.
  - destruct lg; reflexivity.
Qed.

Lemma run_schedule_cons (first : bool) (sched : list bool) (cfg : Config) :
  run_schedule (first :: sched) cfg = run_schedule sched (sched_step cfg first).
Proof. reflexivity. Qed.

(** Once the closed flag is set, a thread that has not yet tested it
    changes nothing: however it is interleaved with the thread that is
    inside [close], the outcome is that of this thread running alone. *)
Lemma late_close_is_noop (sched : list bool) :
  forall (pc1 pc2 : close_pc) (st : State),
    _closed st = true ->
    pc2 = AtTest \/ pc2 = Ended (Ok tt) ->
    both_ended (run_schedule sched (mkConfig pc1 pc2 st)) = true ->
    (thread1 (run_schedule sched (mkConfig pc1 pc2 st)),
     shared (run_schedule sched (mkConfig pc1 pc2 st))) = run_close 9 pc1 st /\
    thread2 (run_schedule sched (mkConfig pc1 pc2 st)) = Ended (Ok tt).
Proof.
  induction sched as [|first sched IH]; intros pc1 pc2 st Hcl Hpc2.
  - simpl. unfold both_ended. simpl. intros Hend.
    apply andb_prop in Hend as [H1 H2].
    split.
    + destruct pc1; try discriminate. reflexivity.
    + destruct Hpc2 as [-> | ->]; [discriminate | reflexivity].
  - rewrite run_schedule_cons. unfold sched_step. cbn [thread1 thread2 shared].
    destruct first.
    + destruct (close_step pc1 st) as [pc1' st'] eqn:Hstep.
      intros Hend.
      assert (Hcl' : _closed st' = true).
      { pose proof (close_step_keeps_closed pc1 st Hcl) as H. now rewrite Hstep in H. }
      destruct (IH pc1' pc2 st' Hcl' Hpc2 Hend) as [H1 H2].
      split; [| exact H2].
      rewrite H1.
      rewrite <- (run_close_saturated pc1 st).
      change (run_close 10 pc1 st)
        with (let (pc', s') := close_step pc1 st in run_close 9 pc' s').
      rewrite Hstep. reflexivity.
    + assert (Hstep : close_step pc2 st = (Ended (Ok tt), st)).
      { destruct Hpc2 as [-> | ->]; simpl; [now rewrite Hcl | reflexivity]. }
      rewrite Hstep. intros Hend.
      apply (IH pc1 (Ended (Ok tt)) st Hcl); [now right | exact Hend].
Qed.

Lemma close_effects (st : State) (c : Connection) (f : Callback) :
  _closed st = false ->
  _conn st = Some c ->
  _process_packet_cb st = Some f ->
  run_close 9 AtLoadConn (set_closed true st) = (Ended (Ok tt), snd (close st)) /\
  trace (snd (close st)) =
    trace st ++ [ConnClose c; ForceFlushQueue (_write_queue st);
                 SinkCall f [CONNECTION_LOST]; IdleAdd DClean]
             ++ (if log st then [LogClose] else []).
Proof.
  destruct st as [conn cb wq buf ipc irc opc orc cl pp wt rt lg tr].
  simpl. intros -> -> ->.
  destruct lg; split; try (vm_compute; reflexivity);
    cbn; rewrite <- ?app_assoc; reflexivity.
Qed.

(** C9 (amended). [close] called twice.  On an open protocol object,
    when one call of [close] has set the closed flag before the other
    call tests it, then however the two calls are interleaved afterwards
    (one after the other included) both end normally and together they
    have closed the connection once, queued the exit marker once,
    handed CONNECTION_LOST to the packet sink once and scheduled the
    clean-up once: the object is left exactly as by a single [close],
    and any further [close] changes nothing. *)
Theorem close_twice_once_flag_is_set
    (st : State) (c : Connection) (f : Callback) (sched : list bool) :
  _closed st = false ->
  _conn st = Some c ->
  _process_packet_cb st = Some f ->
  let cfg := run_schedule (true :: true :: sched) (mkConfig AtTest AtTest st) in
  both_ended cfg = true ->
  thread1 cfg = Ended (Ok tt) /\ thread2 cfg = Ended (Ok tt) /\
  shared cfg = snd (close st) /\
  new_events st (shared cfg) =
    [ConnClose c; ForceFlushQueue (_write_queue st);
     SinkCall f [CONNECTION_LOST]; IdleAdd DClean]
    ++ (if log st then [LogClose] else []) /\
  count is_conn_close (new_events st (shared cfg)) = 1%nat /\
  count is_sentinel (new_events st (shared cfg)) = 1%nat /\
  count is_connection_lost (new_events st (shared cfg)) = 1%nat /\
  close (shared cfg) = (Ok tt, shared cfg).
Proof.
  intros Hcl Hc Hcb cfg Hend.
  assert (Hstart : cfg = run_schedule sched (mkConfig AtLoadConn AtTest (set_closed true st))).
  { unfold cfg. rewrite !run_schedule_cons. unfold sched_step.
    cbn [thread1 thread2 shared close_step]. rewrite Hcl. reflexivity. }
  rewrite Hstart in Hend.
  destruct (@late_close_is_noop sched AtLoadConn AtTest (set_closed true st))
    as [H1 H2]; [reflexivity | now left | exact Hend |].
  rewrite <- Hstart in H1, H2.
  destruct (close_effects st Hcl Hc Hcb) as [Hrun Htrace].
  rewrite Hrun in H1. injection H1 as Ht1 Hs.
  assert (Hev : new_events st (shared cfg) =
                [ConnClose c; ForceFlushQueue (_write_queue st);
                 SinkCall f [CONNECTION_LOST]; IdleAdd DClean]
                ++ (if log st then [LogClose] else [])).
  { unfold new_events. rewrite Hs, Htrace.
    rewrite skipn_app, skipn_all, Nat.sub_diag. reflexivity. }
  repeat split; try assumption.
  - rewrite Hev. destruct (log st); reflexivity.
  - rewrite Hev. destruct (log st); reflexivity.
  - rewrite Hev. unfold count. cbn [app filter is_connection_lost].
    destruct (pyval_eq_dec CONNECTION_LOST CONNECTION_LOST); [| contradiction].
    destruct (log st); reflexivity.
  - rewrite Hs. unfold close at 1, bind at 1, read at 1.
    now rewrite close_sets_closed.
Qed.

(** ** How far the loop of [_read] is sure to end *)

Lemma frame_typed_size (ptype : Z) (packet : bytes) (values : list pyval) (size : Z) :
  frame_typed ptype packet = Message values size ->
  size <= len packet /\
  (0 <= size \/
   exists s l, PACKET_STRUCT ptype = Some s /\ (ptype =? SetEncodings) = false /\
               (ptype =? ClientCutText) = true /\
               nth_error values 4 = Some (VInt l) /\ size = struct_size s + l).
Proof.
  unfold frame_typed.
  destruct (CLIENT_PACKET_TYPE_STR ptype) as [[|a name]|]; try discriminate.
  destruct (PACKET_STRUCT ptype) as [s|]; try discriminate.
  pose proof (struct_size_nonneg s) as Hs.
  destruct (len packet <? struct_size s) eqn:E1; [discriminate |].
  apply Z.ltb_ge in E1.
  destruct (unpack s _) as [ints|]; simpl frame_of; try discriminate.
  destruct (setitem0 (map VInt ints) (VStr (String a name))) as [vals|];
    simpl frame_of; try discriminate.
  destruct (ptype =? SetEncodings) eqn:T1.
  - destruct (getitem vals 2) as [v|]; simpl frame_of; try discriminate.
    destruct (as_int v) as [N|]; simpl frame_of; try discriminate.
    destruct (len packet <? _) eqn:E3; [discriminate |].
    destruct (unpack (repeat Fi (Z.to_nat N)) _); simpl frame_of; try discriminate.
    intros H. injection H as _ Hsz. apply Z.ltb_ge in E3.
    pose proof (struct_size_nonneg (repeat Fi (Z.to_nat N))).
    split; [lia | left; lia].
  - destruct (ptype =? ClientCutText) eqn:T2.
    + destruct (getitem vals 4) as [v|] eqn:G; simpl frame_of; try discriminate.
      destruct (as_int v) as [l|] eqn:Hv; simpl frame_of; try discriminate.
      destruct (len packet <? _) eqn:E3; [discriminate |].
      intros H. injection H as Hvals Hsz. apply Z.ltb_ge in E3.
      split; [lia |]. right. exists s, l. repeat split; try lia.
      subst values. unfold getitem in G.
      destruct (nth_error vals 4) as [v'|] eqn:Hn; [| discriminate].
      injection G as ->. destruct v; try discriminate. injection Hv as ->.
      rewrite nth_error_app1; [exact Hn |].
      apply nth_error_Some. congruence.
    + intros H. injection H as _ Hsz. split; [lia | left; lia].
Qed.

Lemma frame_size (packet : bytes) (values : list pyval) (size : Z) :
  frame packet = Message values size -> size <= len packet.
Proof.
  destruct packet as [|x t]; [discriminate |].
  rewrite frame_cons. intros H. now apply frame_typed_size in H.
Qed.

Lemma be_uint_nonneg (bs : bytes) : 0 <= be_uint bs.
Proof.
  unfold be_uint.
  assert (H : forall acc, 0 <= acc ->
                          0 <= fold_left (fun a x => a * 256 + byte_val x) bs acc).
  { induction bs as [|x t IH]; intros acc Hacc; [exact Hacc |].
    simpl. apply IH. unfold byte_val. lia. }
  apply H. lia.
Qed.

Lemma unpack_fields_unsigned (s : Struct) :
  Forall (fun c => code_signed c = false) s ->
  forall data, Forall (fun z => 0 <= z) (unpack_fields s data).
Proof.
  induction 1 as [|c s Hc Hs IH]; intros data; [constructor |].
  assert (Hd : 0 <= decode_field c (firstn (code_size c) data)).
  { unfold decode_field. rewrite Hc. simpl. apply be_uint_nonneg. }
  destruct c; simpl; try constructor; try exact Hd; apply IH.
Qed.

(** With an unsigned ClientCutText layout every frame has a size
    between 0 and the number of buffered bytes. *)
Lemma unsigned_cut_text_bounded : unsigned_cut_text -> bounded_frames.
Proof.
  intros Hu packet values size Hf.
  destruct packet as [|x t]; [discriminate |].
  rewrite frame_cons in Hf.
  destruct (frame_typed_size _ _ Hf) as [_ [H | (s & l & Hs & T1 & T2 & Hn & ->)]];
    [exact H |].
  unfold frame_typed in Hf. rewrite Hs, T1, T2 in Hf.
  apply Z.eqb_eq in T2.
  rewrite T2 in Hs. pose proof (Hu s Hs) as Hall.
  destruct (CLIENT_PACKET_TYPE_STR (byte_val x)) as [[|a name]|]; try discriminate.
  destruct (len (x :: t) <? struct_size s); [discriminate |].
  unfold unpack in Hf.
  destruct (len _ =? struct_size s); simpl frame_of in Hf; [| discriminate].
  pose proof (unpack_fields_unsigned Hall
                (slice (x :: t) None (Some (struct_size s)))) as Hpos.
  destruct (unpack_fields s _) as [|i0 ints]; simpl frame_of in Hf; [discriminate |].
  destruct (getitem _ 4) as [v|] eqn:G; simpl frame_of in Hf; try discriminate.
  destruct (as_int v) as [l'|] eqn:Hv; simpl frame_of in Hf; try discriminate.
  destruct (len (x :: t) <? _); [discriminate |].
  injection Hf as Hvals Hsz.
  assert (l' = l) by lia. subst l'.
  destruct v; try discriminate. injection Hv as ->.
  unfold getitem in G. simpl in G.
  destruct ints as [|i1 [|i2 [|i3 [|i4 ints']]]]; try discriminate.
  simpl in G. injection G as <-.
  assert (0 <= i4).
  { apply (proj1 (Forall_forall _ _) Hpos). simpl. tauto. }
  pose proof (struct_size_nonneg s). lia.
Qed.

(** When no frame has a negative size, the loop of [_read] in the
    message loop or in discard mode ends within one parser call per
    buffered byte, plus one. *)
Lemma parse_loop_terminates :
  bounded_frames ->
  forall (n : nat) (st : State),
    (List.length (_buffer st) <= n)%nat ->
    _packet_parser st = ParseRfb \/ _packet_parser st = ParseInvalid ->
    fst (parse_loop (S n) st) <> OutOfFuel.
Proof.
  intros Hb n. induction n as [|n IH]; intros st Hlen Hp.
  - destruct (_buffer st) eqn:E; [| simpl in Hlen; lia].
    rewrite parse_loop_empty by assumption. discriminate.
  - destruct (_buffer st) as [|x t] eqn:E.
    { rewrite parse_loop_empty by assumption. discriminate. }
    destruct Hp as [Hp | Hp].
    + rewrite (parse_loop_step (S n) st E), Hp. cbn [packet_parser].
      rewrite parse_rfb_frame.
      destruct (frame (x :: t)) as [|msg|values size|e] eqn:Hf.
      * discriminate.
      * unfold run_frame, invalid, idle_add, timeout_add, emit, bind, modify, read, ret.
        discriminate.
      * simpl run_frame.
        destruct (_process_packet_cb st) as [f|] eqn:Hcb.
        -- rewrite (dispatch_delivers values size st Hcb).
           destruct (size =? 0) eqn:Ez; [discriminate |].
           apply Z.eqb_neq in Ez.
           pose proof (Hb _ _ _ Hf) as Hpos. pose proof (frame_size _ Hf) as Hle.
           apply IH; [| now left].
           cbn [_buffer set_buffer delivered set_trace set_input_packetcount].
           rewrite E, slice_from by lia.
           rewrite length_skipn. unfold len in Hle.
           cbn [List.length] in Hlen, Hle |- *. lia.
        -- unfold dispatch, call_process_packet_cb, bind, modify, read, eval.
           cbn. rewrite Hcb. discriminate.
      * discriminate.
    + rewrite parse_loop_discard by (assumption || lia). discriminate.
Qed.

(** *** A negative ClientCutText length *)

Section SignedCutText.

Variables (x : byte) (a : ascii) (name : string).

Hypothesis type_code : byte_val x = ClientCutText.
Hypothesis other_code : (ClientCutText =? SetEncodings) = false.
Hypothesis type_name : CLIENT_PACKET_TYPE_STR ClientCutText = Some (String a name).
Hypothesis signed_length : PACKET_STRUCT ClientCutText = Some [FB; FB; FB; FB; Fi].

Lemma negative_length_frame :
  frame (cut_text_minus_16 x)
  = Message [VStr (String a name); VInt 0; VInt 0; VInt 0; VInt (-16); VBytes []] (-8).
Proof.
  unfold cut_text_minus_16. rewrite frame_cons, type_code.
  unfold frame_typed. rewrite type_name, signed_length, other_code, Z.eqb_refl.
  reflexivity.
Qed.

(** The message is dispatched and reported as consuming a negative
    number of bytes. *)
Lemma negative_length_is_dispatched (st : State) (f : Callback) :
  _process_packet_cb st = Some f ->
  _parse_rfb (cut_text_minus_16 x) st
  = (Ok (-8),
     delivered f [VStr (String a name); VInt 0; VInt 0; VInt 0; VInt (-16); VBytes []] st).
Proof.
  intros Hcb. rewrite parse_rfb_frame, negative_length_frame.
  now apply dispatch_delivers.
Qed.

(** [buffer[-8:]] of these 8 bytes is the buffer again, so the loop of
    [_read] parses the same message without end. *)
Lemma negative_length_loops (fuel : nat) :
  forall (st : State) (f : Callback),
    _buffer st = cut_text_minus_16 x ->
    _packet_parser st = ParseRfb ->
    _process_packet_cb st = Some f ->
    fst (parse_loop fuel st) = OutOfFuel.
Proof.
  induction fuel as [|fuel IH]; intros st f Hb Hp Hcb.
  - simpl. unfold bind, read. rewrite Hb. reflexivity.
  - rewrite (parse_loop_step fuel st (x := x) (t := tl (cut_text_minus_16 x)) Hb).
    rewrite Hp. cbn [packet_parser].
    change (x :: tl (cut_text_minus_16 x)) with (cut_text_minus_16 x).
    rewrite (negative_length_is_dispatched st Hcb).
    change (-8 =? 0) with false. cbv iota.
    apply IH with (f := f); [| exact Hp | exact Hcb].
    cbn [_buffer set_buffer delivered set_trace set_input_packetcount].
    rewrite Hb. reflexivity.
Qed.

(** C10: what the code does on a negative ClientCutText length.  When
    the table lays ClientCutText out with a signed 32-bit length
    (format [!BBBBi]), on the 8 bytes of a ClientCutText header whose
    length field holds -16 the message parser returns -8, which is not
    between 0 and 8, and the loop of [_read] over a buffer holding these
    bytes does not end, whatever the fuel. *)
Theorem parse_loop_diverges_on_negative_length
    (fuel : nat) (st : State) (c : Connection) (f : Callback) :
  _packet_parser st = ParseRfb ->
  _buffer st = [] ->
  _conn st = Some c ->
  _process_packet_cb st = Some f ->
  fst (_parse_rfb (cut_text_minus_16 x) st) = Ok (-8) /\
  fst (_read fuel (Val (cut_text_minus_16 x)) st) = OutOfFuel.
Proof.
  intros Hp Hb Hc Hcb. split.
  - now rewrite (negative_length_is_dispatched st Hcb).
  - rewrite (read_data fuel (buf := cut_text_minus_16 x) st Hc) by discriminate.
    destruct (absorb_fields (cut_text_minus_16 x) st) as (Ab & _ & _ & Ap & Acb & _).
    unfold bind.
    assert (H : fst (parse_loop fuel (absorb (cut_text_minus_16 x) st)) = OutOfFuel).
    { apply negative_length_loops with (f := f); try congruence.
      rewrite Ab, Hb. reflexivity. }
    destruct (parse_loop fuel (absorb (cut_text_minus_16 x) st)) as [[| |] s'];
      simpl in H; try discriminate. reflexivity.
Qed.

End SignedCutText.

End Properties.

(** * The properties on the sample instantiation *)

Section SampleRuns.

#[local] Existing Instance Sample.table.
#[local] Existing Instance Sample.externals.
#[local] Existing Instance Sample.no_auth.

Import Sample.

Lemma set_encodings_3_complete :
  complete_message set_encodings_3 set_encodings_3_values.
Proof. vm_compute. reflexivity. Qed.

Lemma handshake_accepts_supported_version_witness :
  _parse_protocol_handshake (b "RFB 003.008" ++ [newline]) st0 = (Ok 12, st_rfb).
Proof.
  apply (proj1 (handshake_accepts_supported_version
                  (b "RFB 003.008" ++ [newline]) st0)); reflexivity.
Defined.

Lemma fragmentation_invariance_witness :
  sink_packets (trace (snd (read_while 1 (map Val set_encodings_3_pieces) st_rfb)))
  = sink_packets (trace (snd (read_while 1 [Val set_encodings_3] st_rfb))).
Proof.
  apply (fragmentation_invariance (fuel := 1%nat) (m := set_encodings_3)
           (values := set_encodings_3_values) (chunks := set_encodings_3_pieces)
           st_rfb (c := Conn 0) (f := PacketSink 0));
    [ apply le_n | apply set_encodings_3_complete | reflexivity
    | repeat constructor; discriminate
    | reflexivity | reflexivity | reflexivity | reflexivity | reflexivity ].
Defined.

Lemma unknown_type_discards_witness :
  exists msg,
    _parse_rfb [x09; x00] st_rfb =
    (Ok 0,
     set_trace [IdleAdd (DSink (Some (PacketSink 0)) [INVALID; VStr msg; VBytes [x09; x00]]);
                TimeoutAdd 1000 (DConnectionLost msg)]
       (set_packet_parser ParseInvalid st_rfb)).
Proof.
  destruct (unknown_type_discards x09 [x00] st_rfb (f := PacketSink 0))
    as (msg & H & _); [left; reflexivity | reflexivity |].
  exists msg. exact H.
Defined.

Lemma truncated_message_waits_witness :
  _parse_rfb (firstn 6 set_encodings_3) st_rfb = (Ok 0, st_rfb).
Proof.
  apply (proj1 (truncated_message_waits (firstn 6 set_encodings_3)
                  (q := skipn 6 set_encodings_3) (values := set_encodings_3_values)
                  st_rfb ltac:(discriminate) set_encodings_3_complete)).
  discriminate.
Defined.

Lemma set_encodings_framing_witness :
  _parse_rfb set_encodings_3 st_rfb =
  (Ok 16, delivered (PacketSink 0) set_encodings_3_values st_rfb).
Proof.
  destruct (set_encodings_framing (K := table) x02 (tl set_encodings_3) (a := "S"%char)
              (name := "etEncodings"%string) (s := [FB; FB; FH]) st_rfb
              ltac:(reflexivity) ltac:(reflexivity) ltac:(reflexivity)) as [_ H].
  destruct (H 3 ltac:(vm_compute; discriminate) eq_refl ltac:(lia)) as [_ H'].
  destruct (H' (PacketSink 0) ltac:(vm_compute; discriminate) eq_refl) as [_ Heq].
  exact Heq.
Defined.

Lemma handshake_other_versions_raise_witness :
  _parse_protocol_handshake (b "RFB abc.def" ++ [newline]) st0 = (Raise ValueError, st0)
  /\ _parse_protocol_handshake (b "RFB 003.007" ++ [newline]) st0 = (Raise TypeError, st0).
Proof.
  split.
  - destruct (handshake_other_versions_raise (b "RFB abc.def" ++ [newline]) st0)
      as [(v & Hv & _) | (_ & H)];
      [vm_compute; discriminate | reflexivity | vm_compute; discriminate
      | vm_compute in Hv; discriminate | exact H].
  - destruct (handshake_other_versions_raise (b "RFB 003.007" ++ [newline]) st0)
      as [(v & _ & H) | (Hv & _)];
      [vm_compute; discriminate | reflexivity | vm_compute; discriminate
      | exact H | vm_compute in Hv; discriminate].
Defined.

Lemma send_after_close_is_noop_witness :
  send (VBytes [x00]) (snd (close st_rfb)) = (Ok tt, snd (close st_rfb)).
Proof.
  apply (proj1 (send_after_close_is_noop (VBytes [x00]) (snd (close st_rfb)))).
  reflexivity.
Defined.

(** C9, as stated, fails: when the two threads take turns statement by
    statement, both pass the test of the closed flag before either sets
    it, and every effect of [close] happens twice. *)
Lemma close_race : ~ close_exactly_once st_rfb.
Proof.
  intros H.
  assert (E : both_ended (run_schedule (take_turns 9) (mkConfig AtTest AtTest st_rfb)) = true)
    by (vm_compute; reflexivity).
  specialize (H (take_turns 9) E).
  vm_compute in H. destruct H as (H & _). discriminate H.
Qed.

Lemma close_twice_once_flag_is_set_witness :
  new_events st_rfb
    (shared (run_schedule [true; true; false; true; true; true; true; true; true; true]
               (mkConfig AtTest AtTest st_rfb)))
  = [ConnClose (Conn 0); ForceFlushQueue [];
     SinkCall (PacketSink 0) [CONNECTION_LOST]; IdleAdd DClean].
Proof.
  destruct (close_twice_once_flag_is_set st_rfb (c := Conn 0) (f := PacketSink 0)
              [false; true; true; true; true; true; true; true]
              eq_refl eq_refl eq_refl)
    as (_ & _ & _ & H & _); [vm_compute; reflexivity |].
  exact H.
Defined.

(** In [RFBProtocol] itself the extension point is not implemented, and
    a supported handshake ends in its [NotImplementedError]. *)
Lemma handshake_in_base_class :
  fst (_parse_protocol_handshake (V := BaseClass) (b "RFB 003.008" ++ [newline]) st0)
  = Raise NotImplementedError.
Proof. reflexivity. Qed.

Lemma parse_loop_diverges_on_negative_length_witness :
  fst (_read 1000 (Val (cut_text_minus_16 x06)) st_rfb) = OutOfFuel.
Proof.
  apply (parse_loop_diverges_on_negative_length (K := table) x06 (a := "C"%char)
           (name := "lientCutText"%string)
           ltac:(reflexivity) ltac:(reflexivity) ltac:(reflexivity) ltac:(reflexivity)
           1000 st_rfb (c := Conn 0) (f := PacketSink 0));
    reflexivity.
Defined.

End SampleRuns.

(** * Further properties of the protocol engine *)

Section Reassembly.

Context {K : RfbConst} {X : Externals} {V : Subclass}.

Lemma slice_mid_app {A} (l1 l2 : list A) (i j : Z) :
  0 <= i <= j -> j <= len l1 ->
  slice (l1 ++ l2) (Some i) (Some j) = slice l1 (Some i) (Some j).
Proof.
  intros Hi Hj. pose proof (len_nonneg l2).
  rewrite !slice_mid by (rewrite ?len_app; lia).
  rewrite skipn_app, firstn_app.
  replace (Z.to_nat (j - i) - List.length (skipn (Z.to_nat i) l1))%nat with 0%nat
    by (rewrite length_skipn; unfold len in *; lia).
  simpl. apply app_nil_r.
Qed.

Lemma slice_drop_app {A} (l1 l2 : list A) :
  slice (l1 ++ l2) (Some (len l1)) None = l2.
Proof.
  pose proof (len_nonneg l1). pose proof (len_nonneg l2).
  rewrite slice_from by (rewrite len_app; lia).
  unfold len. rewrite Nat2Z.id, skipn_app, skipn_all, Nat.sub_diag. reflexivity.
Qed.

Lemma frame_typed_extend (ptype : Z) (m r : bytes) (values : list pyval) :
  frame_typed ptype m = Message values (len m) ->
  frame_typed ptype (m ++ r) = Message values (len m).
Proof.
  pose proof (len_nonneg r) as Hr.
  assert (Hlen : len (m ++ r) = len m + len r) by apply len_app.
  unfold frame_typed.
  destruct (CLIENT_PACKET_TYPE_STR ptype) as [[|a name]|]; try discriminate.
  destruct (PACKET_STRUCT ptype) as [s|]; try discriminate.
  pose proof (struct_size_nonneg s) as Hs.
  destruct (len m <? struct_size s) eqn:E1; [discriminate |].
  apply Z.ltb_ge in E1.
  destruct (len (m ++ r) <? struct_size s) eqn:E2; [apply Z.ltb_lt in E2; lia |].
  rewrite slice_upto_app by lia.
  destruct (unpack s (slice m None (Some (struct_size s)))) as [ints|];
    simpl frame_of; try discriminate.
  destruct (setitem0 (map VInt ints) (VStr (String a name))) as [vals|];
    simpl frame_of; try discriminate.
  destruct (ptype =? SetEncodings).
  - destruct (getitem vals 2) as [v|]; simpl frame_of; try discriminate.
    destruct (as_int v) as [N|]; simpl frame_of; try discriminate.
    pose proof (struct_size_nonneg (repeat Fi (Z.to_nat N))) as He.
    destruct (len m <? _) eqn:E3; [discriminate |].
    apply Z.ltb_ge in E3.
    replace (len (m ++ r) <? struct_size s + struct_size (repeat Fi (Z.to_nat N)))
      with false by (symmetry; apply Z.ltb_ge; lia).
    rewrite slice_mid_app by lia. trivial.
  - destruct (ptype =? ClientCutText).
    + destruct (getitem vals 4) as [v|]; simpl frame_of; try discriminate.
      destruct (as_int v) as [l|]; simpl frame_of; try discriminate.
      destruct (len m <? _) eqn:E3; [discriminate |].
      apply Z.ltb_ge in E3.
      intros H. injection H as Hv Hsz.
      replace (len (m ++ r) <? struct_size s + l)
        with false by (symmetry; apply Z.ltb_ge; lia).
      rewrite slice_mid_app by lia. now rewrite Hv, Hsz.
    + trivial.
Qed.

(** Bytes that follow a complete message do not change how it is
    framed. *)
Lemma frame_extend (m r : bytes) (values : list pyval) :
  complete_message m values -> frame (m ++ r) = Message values (len m).
Proof.
  unfold complete_message. destruct m as [|x m']; [discriminate |].
  change ((x :: m') ++ r) with (x :: (m' ++ r)).
  rewrite !frame_cons. change (x :: (m' ++ r)) with ((x :: m') ++ r).
  apply frame_typed_extend.
Qed.

Lemma set_buffer_id (st : State) (p : bytes) : _buffer st = p -> set_buffer p st = st.
Proof. destruct st. simpl. now intros <-. Qed.

Lemma deliver_all_set_buffer (f : Callback) (vs : list (list pyval)) :
  forall (buf : bytes) (st : State),
    deliver_all f vs (set_buffer buf st) = set_buffer buf (deliver_all f vs st).
Proof.
  induction vs as [|v vs IH]; intros buf st; [reflexivity |].
  simpl. rewrite <- IH. reflexivity.
Qed.

Lemma deliver_all_fields (f : Callback) (vs : list (list pyval)) :
  forall st : State,
    sink_packets (trace (deliver_all f vs st)) = sink_packets (trace st) ++ vs /\
    input_packetcount (deliver_all f vs st) = input_packetcount st + len vs /\
    _packet_parser (deliver_all f vs st) = _packet_parser st /\
    _process_packet_cb (deliver_all f vs st) = _process_packet_cb st /\
    _conn (deliver_all f vs st) = _conn st /\
    _closed (deliver_all f vs st) = _closed st.
Proof.
  induction vs as [|v vs IH]; intros st.
  - simpl. rewrite app_nil_r. unfold len. simpl. repeat split; lia.
  - simpl. destruct (IH (delivered f v st)) as (H1 & H2 & H3 & H4 & H5 & H6).
    rewrite H1, H2, H3, H4, H5, H6. cbn.
    rewrite sink_packets_app, <- app_assoc. cbn.
    unfold len. cbn [List.length]. repeat split; lia.
Qed.

(** The loop of [_read] on a buffer that holds whole messages followed
    by the beginning of another one: each message is dispatched in
    turn and the beginning stays buffered. *)
Lemma parse_loop_messages (f : Callback) (msgs : list (bytes * list pyval)) :
  Forall (fun mv => complete_message (fst mv) (snd mv)) msgs ->
  forall (fuel : nat) (st : State) (p : bytes),
    (List.length msgs < fuel)%nat ->
    _buffer st = List.concat (map fst msgs) ++ p ->
    p = [] \/ (exists q v, q <> [] /\ complete_message (p ++ q) v) ->
    _packet_parser st = ParseRfb ->
    _process_packet_cb st = Some f ->
    parse_loop fuel st = (Ok tt, set_buffer p (deliver_all f (map snd msgs) st)).
Proof.
  induction 1 as [|[m v] msgs Hm Hrest IH]; intros fuel st p Hfuel Hb Hp Hparser Hcb.
  - simpl in Hb |- *. rewrite (set_buffer_id st Hb).
    destruct Hp as [-> | (q & v & Hq & Hc)].
    + now apply parse_loop_empty.
    + apply parse_loop_wait with (q := q) (values := v); try assumption; try lia.
      now rewrite Hb.
  - simpl in Hm, Hb, Hfuel.
    pose proof (complete_message_nonempty Hm) as Hne.
    destruct fuel as [|fuel]; [lia |].
    destruct m as [|x m']; [congruence |].
    rewrite <- app_assoc in Hb.
    rewrite (parse_loop_step fuel st (x := x)
               (t := m' ++ List.concat (map fst msgs) ++ p) Hb).
    rewrite Hparser. cbn [packet_parser].
    rewrite parse_rfb_frame.
    change (x :: m' ++ List.concat (map fst msgs) ++ p)
      with ((x :: m') ++ List.concat (map fst msgs) ++ p).
    rewrite (frame_extend _ Hm). simpl run_frame.
    rewrite (dispatch_delivers v (len (x :: m')) st Hcb).
    destruct (len (x :: m') =? 0) eqn:E.
    { apply Z.eqb_eq in E. unfold len in E. simpl in E. lia. }
    replace (slice (_buffer (delivered f v st)) (Some (len (x :: m'))) None)
      with (List.concat (map fst msgs) ++ p).
    + rewrite (IH fuel _ p); try reflexivity; try assumption; try lia.
      simpl map. unfold deliver_all at 2. simpl fold_left.
      fold (deliver_all f (map snd msgs) (delivered f v st)).
      rewrite deliver_all_set_buffer. reflexivity.
    + cbn [_buffer delivered set_trace set_input_packetcount].
      rewrite Hb.
      change (x :: m' ++ List.concat (map fst msgs) ++ p)
        with ((x :: m') ++ List.concat (map fst msgs) ++ p).
      now rewrite slice_drop_app.
Qed.

Lemma split_stream (msgs : list (bytes * list pyval)) :
  Forall (fun mv => complete_message (fst mv) (snd mv)) msgs ->
  forall buf r : bytes,
    buf ++ r = List.concat (map fst msgs) ->
    exists done rest p,
      msgs = done ++ rest /\
      buf = List.concat (map fst done) ++ p /\
      p ++ r = List.concat (map fst rest) /\
      pending p rest.
Proof.
  induction 1 as [|[m v] msgs Hm Hrest IH]; intros buf r Hbr.
  - simpl in Hbr. apply app_eq_nil in Hbr as [-> ->].
    exists [], [], []. now repeat split.
  - simpl in Hbr.
    assert (Hwhole : forall l, buf = m ++ l -> List.concat (map fst msgs) = l ++ r ->
              exists done rest p,
                (m, v) :: msgs = done ++ rest /\
                buf = List.concat (map fst done) ++ p /\
                p ++ r = List.concat (map fst rest) /\
                pending p rest).
    { intros l Hb Hc. destruct (IH l r (eq_sym Hc)) as (done & rest & p & H1 & H2 & H3 & H4).
      exists ((m, v) :: done), rest, p. repeat split; try assumption.
      - simpl. now rewrite H1.
      - simpl. rewrite <- app_assoc, <- H2. exact Hb. }
    apply app_eq_app in Hbr as (l & [[Hb Hc] | [Hb Hc]]).
    + now apply Hwhole with (l := l).
    + destruct l as [|y l'].
      * apply Hwhole with (l := []).
        -- rewrite app_nil_r in Hb |- *. now symmetry.
        -- simpl in Hc. now symmetry.
      * exists [], ((m, v) :: msgs), buf. repeat split.
        -- simpl. rewrite Hc, Hb, <- app_assoc. reflexivity.
        -- simpl. exists (y :: l'). split; [discriminate | now symmetry].
Qed.

(** The read thread on a stream of messages cut into pieces at any
    places. *)
Lemma read_stream (f : Callback) (c : Connection) (fuel : nat) (chunks : list bytes) :
  Forall (fun ch => ch <> []) chunks ->
  forall (msgs : list (bytes * list pyval)) (st : State),
    Forall (fun mv => complete_message (fst mv) (snd mv)) msgs ->
    _buffer st ++ List.concat chunks = List.concat (map fst msgs) ->
    pending (_buffer st) msgs ->
    (List.length msgs < fuel)%nat ->
    _closed st = false ->
    _conn st = Some c ->
    _process_packet_cb st = Some f ->
    _packet_parser st = ParseRfb ->
    exists st',
      read_while fuel (map Val chunks) st = (Ok tt, st') /\
      sink_packets (trace st') = sink_packets (trace st) ++ map snd msgs /\
      _buffer st' = [] /\
      input_packetcount st' = input_packetcount st + len msgs /\
      _packet_parser st' = ParseRfb.
Proof.
  induction 1 as [|ch chunks Hch Hchunks IH];
    intros msgs st Hmsgs Hstream Hpend Hfuel Hcl Hc Hcb Hp.
  - simpl in Hstream. rewrite app_nil_r in Hstream.
    destruct msgs as [|[m v] msgs].
    + exists st. simpl. rewrite app_nil_r. unfold len. simpl.
      repeat split; try assumption; lia.
    + exfalso. simpl in Hpend, Hstream. destruct Hpend as (q & Hq & Hm).
      apply (f_equal (@List.length byte)) in Hstream.
      rewrite <- Hm, !length_app in Hstream.
      destruct q; [congruence | simpl in Hstream; lia].
  - destruct (absorb_fields ch st) as (Ab & Ac & Acl & Ap & Acb & Ai & As & _).
    destruct (@split_stream msgs Hmsgs (_buffer st ++ ch) (List.concat chunks))
      as (done & rest & p & Hsplit & Hbuf & Hrest & Hpend').
    { rewrite <- app_assoc. exact Hstream. }
    assert (Hdone : Forall (fun mv => complete_message (fst mv) (snd mv)) done /\
                    Forall (fun mv => complete_message (fst mv) (snd mv)) rest).
    { rewrite Hsplit in Hmsgs. now apply Forall_app in Hmsgs. }
    destruct Hdone as [Hdone Hrest'].
    assert (Hlen : List.length msgs = (List.length done + List.length rest)%nat).
    { rewrite Hsplit. apply length_app. }
    assert (Hloop : parse_loop fuel (absorb ch st)
                    = (Ok tt, set_buffer p (deliver_all f (map snd done) (absorb ch st)))).
    { apply parse_loop_messages; try congruence; try lia.
      destruct rest as [|[m v] rest0]; [now left |].
      right. simpl in Hpend'. destruct Hpend' as (q & Hq & Hm).
      exists q, v. split; [exact Hq |].
      inversion Hrest'; subst. assumption. }
    destruct (deliver_all_fields f (map snd done) (absorb ch st))
      as (D1 & D2 & D3 & D4 & D5 & D6).
    destruct (IH rest (set_buffer p (deliver_all f (map snd done) (absorb ch st))))
      as (st' & Hrun & H1 & H2 & H3 & H4);
      try assumption; try (cbn; congruence); try lia.
    exists st'. split.
    + simpl map. simpl read_while. unfold bind at 1, read. rewrite Hcl.
      unfold bind at 1. rewrite (read_data fuel st Hc Hch).
      unfold bind at 1. rewrite Hloop. exact Hrun.
    + cbn [trace input_packetcount set_buffer] in H1, H3.
      rewrite H1, H3, D1, D2, As, Ai, Hsplit, map_app, <- app_assoc.
      unfold len. rewrite !length_map, length_app.
      repeat split; try assumption; lia.
Qed.

(** Stream reassembly.  Any sequence of complete messages, read by the
    read thread in non-empty pieces cut at any places, is handed to the
    packet sink message by message in the order of arrival, each
    message once, and leaves nothing buffered. *)
Theorem stream_reassembly
    (fuel : nat) (msgs : list (bytes * list pyval)) (chunks : list bytes)
    (st : State) (c : Connection) (f : Callback) :
  Forall (fun mv => complete_message (fst mv) (snd mv)) msgs ->
  List.concat chunks = List.concat (map fst msgs) ->
  Forall (fun ch => ch <> []) chunks ->
  (List.length msgs < fuel)%nat ->
  _buffer st = [] ->
  _closed st = false ->
  _conn st = Some c ->
  _process_packet_cb st = Some f ->
  _packet_parser st = ParseRfb ->
  exists st',
    read_while fuel (map Val chunks) st = (Ok tt, st') /\
    sink_packets (trace st') = sink_packets (trace st) ++ map snd msgs /\
    _buffer st' = [] /\
    input_packetcount st' = input_packetcount st + len msgs /\
    _packet_parser st' = ParseRfb.
Proof.
  intros Hmsgs Hcat Hchunks Hfuel Hb Hcl Hc Hcb Hp.
  apply read_stream with (f := f) (c := c); try assumption.
  - now rewrite Hb.
  - rewrite Hb. destruct msgs as [|[m v] msgs]; [reflexivity |].
    simpl. exists m. split; [| reflexivity].
    inversion Hmsgs; subst. now apply complete_message_nonempty with (values := v).
Qed.

End Reassembly.

Section ParserBounds.

Context {K : RfbConst} {X : Externals} {V : Subclass}.

(** Handshake with a wrong header.  On 12 bytes or more that do not
    start with [RFB ] the handshake parser returns 0, makes the discard
    parser the active one and schedules one INVALID packet for the
    packet sink, whose message names the error, shows the first 8 bytes
    in hexadecimal and the read buffer with its size, followed by the
    disconnect after 1000 ms; nothing else changes. *)
Theorem handshake_rejects_wrong_header (packet : bytes) (st : State) :
  12 <= len packet ->
  startswith packet (b "RFB ") = false ->
  let err := (("invalid RFB protocol handshake packet header" ++ ": '"
               ++ hexstr (VBytes (firstn 8 packet)) ++ "'")
              ++ " read buffer=" ++ repr_ellipsized packet
              ++ " (" ++ fmt_int (len packet) ++ " bytes)")%string in
  _parse_protocol_handshake packet st =
  (Ok 0,
   set_trace (trace st ++
                [IdleAdd (DSink (_process_packet_cb st) [INVALID; VStr err; VBytes packet]);
                 TimeoutAdd 1000 (DConnectionLost err)])
     (set_packet_parser ParseInvalid st)).
Proof.
  intros Hlen Hstart err. unfold _parse_protocol_handshake.
  destruct (len packet <? 12) eqn:E; [apply Z.ltb_lt in E; lia |].
  rewrite Hstart. cbn [negb].
  unfold invalid_header, _invalid_header, invalid, idle_add, timeout_add, emit,
    bind, modify, read, ret.
  destruct (1 <? len packet) eqn:E1; [| apply Z.ltb_ge in E1; lia].
  rewrite slice_upto by lia.
  unfold err. destruct st.
  cbn [set_trace set_packet_parser trace _conn _process_packet_cb _write_queue
       _buffer input_packetcount input_raw_packetcount output_packetcount
       output_raw_packetcount _closed _packet_parser _write_thread _read_thread log].
  rewrite <- app_assoc. reflexivity.
Qed.

(** What the handshake accepts.  The version is whatever [int] reads
    in the two dot-separated parts of bytes 4 to 10: any 12 bytes or
    more starting with [RFB ] whose field reads as 3 and 8 (leading
    zeros, surrounding blanks, a sign or underscores included) complete
    the handshake like [RFB 003.008\n]; byte 11 is not looked at. *)
Theorem handshake_accepts_any_spelling (packet : bytes) (st : State) :
  12 <= len packet ->
  startswith packet (b "RFB ") = true ->
  tuple_int (split "."%byte (slice packet (Some 4) (Some 11))) = Val PROTOCOL_VERSION ->
  _parse_protocol_handshake packet st = (handshake_complete ;; ret 12)%py st.
Proof.
  intros Hlen Hstart Hver. unfold _parse_protocol_handshake.
  destruct (len packet <? 12) eqn:E; [apply Z.ltb_lt in E; lia |].
  rewrite Hstart, Hver. reflexivity.
Qed.

(** The handshake parser consumes nothing or exactly 12 bytes, and 12
    only when that many are buffered. *)
Theorem handshake_consumes_0_or_12 (packet : bytes) (st st' : State) (consumed : Z) :
  _parse_protocol_handshake packet st = (Ok consumed, st') ->
  consumed = 0 \/ (consumed = 12 /\ 12 <= len packet).
Proof.
  unfold _parse_protocol_handshake.
  destruct (len packet <? 12) eqn:E.
  - intros H. injection H as <- _. now left.
  - apply Z.ltb_ge in E.
    destruct (startswith packet (b "RFB ")); cbn [negb].
    + unfold bind at 1, eval at 1.
      destruct (tuple_int _) as [version|]; [| discriminate].
      destruct (tuple_eqb version PROTOCOL_VERSION); cbn [negb].
      * unfold bind. destruct (handshake_complete st) as [[[]| |] s]; try discriminate.
        intros H. injection H as <- _. now right.
      * discriminate.
    + unfold invalid_header, _invalid_header, invalid, idle_add, timeout_add, emit,
        bind, modify, read, ret.
      intros H. injection H as <- _. now left.
Qed.

(** The message parser never reports more bytes than are buffered, and
    a negative count only for a ClientCutText message. *)
Theorem parse_rfb_never_overruns (packet : bytes) (st st' : State) (consumed : Z) :
  _parse_rfb packet st = (Ok consumed, st') ->
  consumed <= len packet /\
  (consumed < 0 ->
   exists x t, packet = x :: t /\ byte_val x = ClientCutText /\
               byte_val x <> SetEncodings).
Proof.
  rewrite parse_rfb_frame. pose proof (len_nonneg packet) as Hl.
  destruct (frame packet) as [|msg|values size|e] eqn:Hf; simpl run_frame.
  - intros H. injection H as <- _. split; lia.
  - unfold invalid, idle_add, timeout_add, emit, bind, modify, read, ret.
    intros H. injection H as <- _. split; lia.
  - destruct (_process_packet_cb st) as [f|] eqn:Hcb.
    + rewrite (dispatch_delivers values size st Hcb).
      intros H. injection H as <- _.
      destruct packet as [|x t]; [discriminate |].
      rewrite frame_cons in Hf.
      destruct (frame_typed_size _ _ Hf) as [Hle [Hpos | (s & l & _ & T1 & T2 & _)]].
      * split; [exact Hle | lia].
      * split; [exact Hle |]. intros _. exists x, t.
        apply Z.eqb_eq in T2. apply Z.eqb_neq in T1.
        repeat split; congruence.
    + unfold dispatch, call_process_packet_cb, bind, modify, read, eval. cbn.
      rewrite Hcb. discriminate.
  - discriminate.
Qed.

(** With an unsigned ClientCutText layout the message parser consumes
    between 0 and the number of buffered bytes, and the loop of [_read],
    in the message loop or in discard mode, ends within one parser call
    per buffered byte, plus one. *)
Theorem parse_loop_ends_with_unsigned_lengths :
  unsigned_cut_text ->
  (forall (packet : bytes) (st st' : State) (consumed : Z),
      _parse_rfb packet st = (Ok consumed, st') ->
      0 <= consumed <= len packet) /\
  (forall st : State,
      _packet_parser st = ParseRfb \/ _packet_parser st = ParseInvalid ->
      fst (parse_loop (S (List.length (_buffer st))) st) <> OutOfFuel).
Proof.
  intros Hu. pose proof (unsigned_cut_text_bounded Hu) as Hb. split.
  - intros packet st st' consumed. rewrite parse_rfb_frame.
    pose proof (len_nonneg packet) as Hl.
    destruct (frame packet) as [|msg|values size|e] eqn:Hf; simpl run_frame.
    + intros H. injection H as <- _. lia.
    + unfold invalid, idle_add, timeout_add, emit, bind, modify, read, ret.
      intros H. injection H as <- _. lia.
    + destruct (_process_packet_cb st) as [f|] eqn:Hf'.
      * rewrite (dispatch_delivers values size st Hf').
        intros H. injection H as <- _.
        split; [now apply (Hb packet values) | now apply frame_size with (values := values)].
      * unfold dispatch, call_process_packet_cb, bind, modify, read, eval. cbn.
        rewrite Hf'. discriminate.
    + discriminate.
  - intros st Hp. apply parse_loop_terminates; [exact Hb | lia | exact Hp].
Qed.


(** In discard mode a read drops what was buffered together with what
    arrives: the buffer is empty afterwards, the read is counted, and
    nothing else happens. *)
Theorem discard_read_drops_everything
    (fuel : nat) (buf : bytes) (st : State) (c : Connection) :
  (1 <= fuel)%nat ->
  buf <> [] ->
  _conn st = Some c ->
  _packet_parser st = ParseInvalid ->
  _read fuel (Val buf) st = (Ok (Some true), set_buffer [] (absorb buf st)).
Proof.
  intros Hf Hne Hc Hp.
  rewrite (read_data fuel st Hc Hne).
  destruct (absorb_fields buf st) as (_ & _ & _ & Ap & _).
  unfold bind. rewrite parse_loop_discard by congruence. reflexivity.
Qed.

(** Bytes that follow the handshake in the same read: the handshake
    parser takes exactly the 12 bytes, and the rest of the buffer is
    parsed, in the same loop, by the parser the extension point
    selected. *)
Theorem handshake_leaves_the_rest
    (fuel : nat) (rest : bytes) (st st1 : State) :
  _buffer st = (b "RFB 003.008" ++ [newline]) ++ rest ->
  _packet_parser st = ParseProtocolHandshake ->
  handshake_complete st = (Ok tt, st1) ->
  _buffer st1 = _buffer st ->
  parse_loop (S fuel) st = parse_loop fuel (set_buffer rest st1).
Proof.
  intros Hb Hp Hc Hb1.
  assert (Hb' : _buffer st = "R"%byte :: tl (b "RFB 003.008" ++ [newline]) ++ rest)
    by exact Hb.
  rewrite (parse_loop_step fuel st Hb'). rewrite Hp. cbn [packet_parser].
  change ("R"%byte :: tl (b "RFB 003.008" ++ [newline]) ++ rest)
    with ((b "RFB 003.008" ++ [newline]) ++ rest).
  assert (Hhs : _parse_protocol_handshake ((b "RFB 003.008" ++ [newline]) ++ rest) st
                = (Ok 12, st1)).
  { destruct (supported_version_field ((b "RFB 003.008" ++ [newline]) ++ rest))
      as (Hlen & Hstart & Hver); [reflexivity |].
    unfold _parse_protocol_handshake.
    destruct (len _ <? 12) eqn:E; [apply Z.ltb_lt in E; lia |].
    rewrite Hstart, Hver. cbn. unfold bind. rewrite Hc. reflexivity. }
  rewrite Hhs. change (12 =? 0) with false. cbv iota.
  rewrite Hb1, Hb.
  change 12 with (len (b "RFB 003.008" ++ [newline])).
  now rewrite slice_drop_app.
Qed.

End ParserBounds.

Section Threads.

Context {K : RfbConst} {X : Externals} {V : Subclass}.

Lemma close_returns (st : State) (f : Callback) :
  _process_packet_cb st = Some f -> fst (close st) = Ok tt.
Proof.
  destruct st as [conn cb wq buf ipc irc opc orc cl pp wt rt lg tr].
  simpl. intros ->. destruct cl, conn, lg; reflexivity.
Qed.

Lemma close_when_closed (st : State) : _closed st = true -> close st = (Ok tt, st).
Proof. intros H. unfold close, bind, read. now rewrite H. Qed.

(** End of stream.  When the connection's [read] returns no bytes the
    read thread schedules [close] after 1000 ms and ends: the closed
    flag is not set yet, what is buffered stays buffered, unparsed, and
    nothing the connection would deliver later is read. *)
Theorem read_thread_stops_at_eof
    (fuel : nat) (reads : list (result bytes)) (st : State) (c : Connection) :
  _closed st = false ->
  _conn st = Some c ->
  _read fuel (Val []) st
  = (Ok (Some false), set_trace (trace st ++ [TimeoutAdd 1000 DClose]) st) /\
  _read_thread_loop fuel (Val [] :: reads) st
  = (Ok tt, set_trace (trace st ++ [TimeoutAdd 1000 DClose]) st).
Proof.
  intros Hcl Hc.
  assert (H : _read fuel (Val []) st
              = (Ok (Some false), set_trace (trace st ++ [TimeoutAdd 1000 DClose]) st)).
  { unfold _read, bind, read, eval, timeout_add, emit, modify, ret. now rewrite Hc. }
  split; [exact H |].
  unfold _read_thread_loop, try_except. simpl read_while.
  unfold bind at 1, read. rewrite Hcl. unfold bind at 1. rewrite H. reflexivity.
Qed.

(** A failing [read].  On an open protocol object, when the
    connection's [read] raises, the read thread ends without raising:
    for an [OSError] (raised with arguments) it only schedules [_connection_lost] on the idle
    tick and closes nothing itself; for [ConnectionClosedException] and
    for any other exception it runs [close] at once.  What was buffered
    is not parsed, and later reads are not made. *)
Theorem read_thread_handles_errors
    (fuel : nat) (reads : list (result bytes)) (e : exn)
    (st : State) (c : Connection) (f : Callback) :
  _closed st = false ->
  _conn st = Some c ->
  _process_packet_cb st = Some f ->
  _read_thread_loop fuel (Exc e :: reads) st =
  match e with
  | OSError =>
      (Ok tt,
       set_trace (trace st ++
                    [IdleAdd (DConnectionLost
                                ("read connection " ++ conn_str (Some c) ++ " reset"))])
         st)
  | _ => (Ok tt, snd (close st))
  end.
Proof.
  intros Hcl Hc Hcb.
  pose proof (close_returns st Hcb) as Hok.
  unfold _read_thread_loop, try_except. simpl read_while.
  unfold bind at 1, read at 1. rewrite Hcl.
  unfold bind at 1, _read at 1, bind at 1, read at 1. rewrite Hc.
  unfold bind at 1, eval at 1.
  unfold bind at 1, read at 1. rewrite Hcl.
  unfold bind at 1, read at 1. rewrite Hc.
  destruct e;
    try (destruct (close st) as [o s]; simpl in Hok |- *; now rewrite Hok).
  - unfold _connection_lost, bind, ret.
    destruct (close st) as [o s]. simpl in Hok |- *. now rewrite Hok.
  - unfold _internal_error, bind, read, idle_add, emit, modify. now rewrite Hcl.
Qed.

(** INVALID is seen before the disconnect.  [invalid] schedules the
    INVALID packet on the idle tick and [_connection_lost] 1000 ms
    later; when the scheduler runs the two calls in that order on an
    open protocol object, the packet sink receives INVALID with the
    message and the offending bytes, then the connection is closed, the
    exit marker queued and CONNECTION_LOST delivered: two packets for
    the sink, INVALID first. *)
Theorem invalid_notifies_before_closing
    (msg : string) (data : bytes) (st : State) (c : Connection) (f : Callback) :
  _closed st = false ->
  _conn st = Some c ->
  _process_packet_cb st = Some f ->
  let d1 := DSink (Some f) [INVALID; VStr msg; VBytes data] in
  let d2 := DConnectionLost msg in
  let run := (invalid msg data ;; run_deferred d1 ;; run_deferred d2)%py st in
  fst run = Ok tt /\
  trace (snd run) =
    trace st ++ [IdleAdd d1; TimeoutAdd 1000 d2;
                 SinkCall f [INVALID; VStr msg; VBytes data];
                 ConnClose c; ForceFlushQueue (_write_queue st);
                 SinkCall f [CONNECTION_LOST]; IdleAdd DClean]
             ++ (if log st then [LogClose] else []) /\
  sink_packets (trace (snd run)) =
    sink_packets (trace st) ++ [[INVALID; VStr msg; VBytes data]; [CONNECTION_LOST]] /\
  _closed (snd run) = true /\
  _packet_parser (snd run) = ParseInvalid.
Proof.
  destruct st as [conn cb wq buf ipc irc opc orc cl pp wt rt lg tr].
  simpl. intros -> -> ->.
  destruct lg; cbn; rewrite <- ?app_assoc; cbn;
    rewrite ?sink_packets_app; cbn; rewrite ?app_nil_r; repeat split; reflexivity.
Qed.


Lemma send_all_open (ps : list pyval) :
  forall st : State,
    _closed st = false ->
    exists st',
      send_all ps st = (Ok tt, st') /\
      _write_queue st' = _write_queue st ++ ps /\
      _closed st' = false /\
      _conn st' = _conn st /\
      _read_thread st' = _read_thread st /\
      output_packetcount st' = output_packetcount st /\
      output_raw_packetcount st' = output_raw_packetcount st /\
      _write_thread st' =
        match ps, _write_thread st with
        | _ :: _, None => Some WriteThread
        | _, t => t
        end /\
      count is_start_write (trace st') =
        (count is_start_write (trace st)
         + match ps, _write_thread st with
           | _ :: _, None => 1
           | _, _ => 0
           end)%nat.
Proof.
  induction ps as [|p ps IH]; intros st Hcl.
  - exists st. simpl. rewrite app_nil_r.
    destruct (_write_thread st); repeat split; try reflexivity; try assumption;
      symmetry; apply Nat.add_0_r.
  - assert (Hsend : exists st1,
        send p st = (Ok tt, st1) /\
        _write_queue st1 = _write_queue st ++ [p] /\
        _closed st1 = false /\ _conn st1 = _conn st /\
        _read_thread st1 = _read_thread st /\
        output_packetcount st1 = output_packetcount st /\
        output_raw_packetcount st1 = output_raw_packetcount st /\
        _write_thread st1 = Some (match _write_thread st with
                                  | Some t => t | None => WriteThread end) /\
        count is_start_write (trace st1) =
          (count is_start_write (trace st)
           + match _write_thread st with None => 1 | Some _ => 0 end)%nat).
    { clear IH. destruct st as [conn cb wq buf ipc irc opc orc cl pp wt rt lg tr].
      simpl in Hcl. subst cl.
      unfold send, start_write_thread, bind, read, emit, modify, pass, ret.
      destruct lg, wt; cbn; eexists;
        (split; [reflexivity |]); cbn; rewrite ?filter_app, ?length_app; cbn;
        repeat split; lia. }
    destruct Hsend as (st1 & Hs & Q1 & C1 & N1 & R1 & O1 & P1 & T1 & S1).
    destruct (IH st1 C1) as (st' & Hall & Q & C & N & R & O & P & T & S).
    exists st'. split.
    { simpl. unfold bind. rewrite Hs. exact Hall. }
    rewrite Q, Q1, <- app_assoc, N, N1, R, R1, O, O1, P, P1, T, S, T1, S1.
    repeat split; try assumption.
    + destruct ps, (_write_thread st); reflexivity.
    + destruct ps, (_write_thread st); lia.
Qed.

(** The write thread is started lazily and once.  Any non-empty series
    of [send] on an open protocol object whose write thread is not yet
    started starts it exactly once, at the first [send], and appends the
    packets to the write queue in the order sent; nothing is written or
    counted as output by [send] itself. *)
Theorem send_starts_the_writer_once (ps : list pyval) (st : State) :
  _closed st = false ->
  _write_thread st = None ->
  ps <> [] ->
  exists st',
    send_all ps st = (Ok tt, st') /\
    _write_queue st' = _write_queue st ++ ps /\
    queue_size st' = queue_size st + len ps /\
    count is_start_write (trace st') = S (count is_start_write (trace st)) /\
    get_threads st' = WriteThread :: get_threads st /\
    output_packetcount st' = output_packetcount st.
Proof.
  intros Hcl Hwt Hne.
  destruct (send_all_open ps st Hcl) as (st' & Hall & Q & _ & _ & R & O & _ & T & S).
  exists st'. rewrite Hwt in T, S.
  destruct ps as [|p ps]; [congruence |].
  repeat split; try assumption.
  - unfold queue_size. rewrite Q. apply len_app.
  - lia.
  - unfold get_threads. now rewrite T, R, Hwt.
Qed.

End Threads.

Section Writer.

Context {X : Externals}.

Lemma set_output_raw_id (st : State) :
  set_output_raw_packetcount (output_raw_packetcount st + 0) st = st.
Proof. destruct st. unfold set_output_raw_packetcount. simpl. now rewrite Z.add_0_r. Qed.

Lemma write_buf_empty (fuel : nat) (c : Connection) (st : State)
    (ans : list (result Z)) (calls : list WriteCall) :
  write_buf fuel c (VBytes []) (mkWire st ans calls) = (Ok tt, mkWire st ans calls).
Proof. destruct fuel; reflexivity. Qed.

(** The loop of [_write] on one buffer, the connection taking it in the
    parts [ws]. *)
Lemma write_buf_drains (c : Connection) (ws : list Z) :
  forall (bs : bytes) (fuel : nat) (st : State) (rest : list (result Z))
         (calls : list WriteCall),
    drains ws (len bs) = true ->
    (List.length ws <= fuel)%nat ->
    _closed st = false ->
    write_buf fuel c (VBytes bs) (mkWire st (map Val ws ++ rest) calls)
    = (Ok tt,
       mkWire (set_output_raw_packetcount (output_raw_packetcount st + progress ws) st)
         rest (calls ++ write_calls c bs ws)).
Proof.
  induction ws as [|k ws IH]; intros bs fuel st rest calls Hd Hfuel Hcl.
  - simpl in Hd. apply Z.eqb_eq in Hd.
    destruct bs; [| unfold len in Hd; simpl in Hd; lia].
    rewrite write_buf_empty. simpl. unfold progress. simpl.
    now rewrite app_nil_r, set_output_raw_id.
  - simpl in Hd.
    apply andb_prop in Hd as [Hd Hrest]. apply andb_prop in Hd as [Hd Hle].
    apply andb_prop in Hd as [Hpos Hk].
    apply Z.ltb_lt in Hpos. apply Z.leb_le in Hk, Hle.
    destruct fuel as [|fuel]; [simpl in Hfuel; lia |].
    destruct bs as [|x bs']; [unfold len in Hpos; simpl in Hpos; lia |].
    cbn [write_buf]. unfold wbind at 1, lift at 1, read at 1.
    cbn [proto answers wire]. rewrite Hcl. cbn [py_truthy andb negb].
    unfold wbind at 1, con_write at 1. cbn [proto answers wire map app].
    destruct (k =? 0) eqn:Ek.
    + apply Z.eqb_eq in Ek. subst k.
      rewrite Z.sub_0_r in Hrest.
      rewrite (IH (x :: bs') fuel st rest); try assumption; try (simpl in Hfuel; lia).
      simpl write_calls. unfold progress. simpl filter.
      rewrite <- app_assoc. simpl.
      replace (slice (x :: bs') (Some 0) None) with (x :: bs'); [reflexivity |].
      rewrite slice_from by (pose proof (len_nonneg (x :: bs')); lia). reflexivity.
    + unfold wbind at 1, lift at 1, eval at 1. cbn [proto answers wire py_slice_from].
      unfold wbind at 1, lift at 1, modify at 1. cbn [proto answers wire].
      rewrite (IH (slice (x :: bs') (Some k) None) fuel); try (simpl in Hfuel; lia).
      * simpl write_calls. rewrite <- app_assoc. simpl.
        unfold progress. simpl filter. rewrite Ek. simpl negb. cbv iota.
        f_equal. f_equal.
        destruct st. unfold set_output_raw_packetcount. simpl.
        f_equal. unfold len. simpl List.length. lia.
      * rewrite slice_from by lia.
        replace (len (skipn (Z.to_nat k) (x :: bs'))) with (len (x :: bs') - k);
          [exact Hrest |].
        unfold len in *. rewrite length_skipn. lia.
      * exact Hcl.
Qed.

(** What the connection took, put end to end, is the buffer. *)
Lemma taken_write_calls (c : Connection) (ws : list Z) :
  forall bs : bytes,
    drains ws (len bs) = true -> taken (write_calls c bs ws) = bs.
Proof.
  induction ws as [|k ws IH]; intros bs Hd.
  - simpl in Hd. apply Z.eqb_eq in Hd.
    destruct bs; [reflexivity | unfold len in Hd; simpl in Hd; lia].
  - simpl in Hd.
    apply andb_prop in Hd as [Hd Hrest]. apply andb_prop in Hd as [Hd Hle].
    apply andb_prop in Hd as [Hpos Hk].
    apply Z.ltb_lt in Hpos. apply Z.leb_le in Hk, Hle.
    simpl. rewrite IH.
    + rewrite slice_from by lia. apply firstn_skipn.
    + rewrite slice_from by lia.
      replace (len (skipn (Z.to_nat k) bs)) with (len bs - k); [exact Hrest |].
      unfold len in *. rewrite length_skipn. lia.
Qed.

Lemma write_once
    (c : Connection) (bs : bytes) (q : Queue) (ws : list Z)
    (rest : list (result Z)) (calls : list WriteCall) (fuel : nat) (st : State) :
  _write_queue st = VBytes bs :: q ->
  _conn st = Some c ->
  _closed st = false ->
  drains ws (len bs) = true ->
  (List.length ws <= fuel)%nat ->
  _write fuel (mkWire st (map Val ws ++ rest) calls)
  = (Ok true,
     mkWire
       (set_output_packetcount (output_packetcount st + 1)
          (set_output_raw_packetcount (output_raw_packetcount st + progress ws)
             (set_write_queue q st)))
       rest (calls ++ write_calls c bs ws)).
Proof.
  intros Hq Hc Hcl Hd Hfuel.
  unfold _write. unfold wbind at 1, lift at 1, read at 1. cbn [proto answers wire].
  rewrite Hq.
  unfold wbind at 1, lift at 1, modify at 1. cbn [proto answers wire].
  unfold wbind at 1, lift at 1, read at 1. cbn [proto answers wire].
  replace (_conn (set_write_queue q st)) with (Some c) by (symmetry; exact Hc).
  unfold wbind at 1.
  rewrite write_buf_drains; try assumption.
  reflexivity.
Qed.

(** Partial writes.  [_write] takes the oldest buffer off the queue and
    hands it to the connection until all of it is taken: when [write]
    returns 0 the same bytes are offered again, otherwise what is left
    after the bytes taken; the parts taken, put end to end, are exactly
    the buffer.  It returns [True], counts one output packet and one raw
    output packet per call that took something, and changes nothing
    else. *)
Theorem write_flushes_whole_buffer
    (c : Connection) (bs : bytes) (q : Queue) (ws : list Z)
    (rest : list (result Z)) (calls : list WriteCall) (fuel : nat) (st : State) :
  _write_queue st = VBytes bs :: q ->
  _conn st = Some c ->
  _closed st = false ->
  drains ws (len bs) = true ->
  (List.length ws <= fuel)%nat ->
  _write fuel (mkWire st (map Val ws ++ rest) calls)
  = (Ok true,
     mkWire
       (set_output_packetcount (output_packetcount st + 1)
          (set_output_raw_packetcount (output_raw_packetcount st + progress ws)
             (set_write_queue q st)))
       rest (calls ++ write_calls c bs ws)) /\
  taken (write_calls c bs ws) = bs.
Proof.
  intros Hq Hc Hcl Hd Hfuel. split.
  - now apply write_once.
  - now apply taken_write_calls.
Qed.

Lemma drains_whole (p : bytes) : p <> [] -> drains [len p] (len p) = true.
Proof.
  intros Hp. apply len_pos in Hp. simpl.
  rewrite Z.sub_diag, Z.leb_refl.
  replace (0 <? len p) with true by (symmetry; apply Z.ltb_lt; lia).
  replace (0 <=? len p) with true by (symmetry; apply Z.leb_le; lia).
  reflexivity.
Qed.

Lemma progress_whole (p : bytes) : p <> [] -> progress [len p] = 1.
Proof.
  intros Hp. apply len_pos in Hp. unfold progress. simpl.
  replace (len p =? 0) with false by (symmetry; apply Z.eqb_neq; lia).
  reflexivity.
Qed.

(** The write thread on a queue of non-empty buffers, each taken whole
    by the connection. *)
Lemma write_while_flush (c : Connection) (ps : list bytes) :
  Forall (fun p => p <> []) ps ->
  forall (n fuel : nat) (st : State) (rest : list (result Z)) (calls : list WriteCall),
    _write_queue st = map VBytes ps ->
    _conn st = Some c ->
    _closed st = false ->
    (List.length ps <= n)%nat ->
    (1 <= fuel)%nat ->
    exists st',
      write_while fuel n (mkWire st (map (fun p => Val (len p)) ps ++ rest) calls)
      = (Ok tt, mkWire st' rest (calls ++ whole_writes c ps)) /\
      _write_queue st' = [] /\
      output_packetcount st' = output_packetcount st + len ps /\
      output_raw_packetcount st' = output_raw_packetcount st + len ps /\
      trace st' = trace st /\
      _closed st' = false.
Proof.
  induction 1 as [|p ps Hp Hps IH]; intros n fuel st rest calls Hq Hc Hcl Hn Hfuel.
  - exists st. simpl in Hq. unfold whole_writes, len. simpl. rewrite app_nil_r.
    split; [| repeat split; try assumption; lia].
    destruct n; cbn [write_while]; unfold wbind at 1, lift at 1, read at 1;
      cbn [proto answers wire]; rewrite Hcl;
      unfold wbind at 1, lift at 1, read at 1; cbn [proto answers wire];
      rewrite Hq; reflexivity.
  - simpl in Hq, Hn. destruct n as [|n]; [lia |].
    cbn [write_while]. unfold wbind at 1, lift at 1, read at 1.
    cbn [proto answers wire]. rewrite Hcl.
    unfold wbind at 1, lift at 1, read at 1. cbn [proto answers wire]. rewrite Hq.
    unfold wbind at 1.
    change (map (fun p0 => Val (len p0)) (p :: ps) ++ rest)
      with (map Val [len p] ++ (map (fun p0 => Val (len p0)) ps ++ rest)).
    rewrite (@write_once c p (map VBytes ps) [len p]);
      try assumption; try (simpl; lia); [| now apply drains_whole].
    rewrite (progress_whole Hp).
    destruct (IH n fuel
                (set_output_packetcount (output_packetcount st + 1)
                   (set_output_raw_packetcount (output_raw_packetcount st + 1)
                      (set_write_queue (map VBytes ps) st)))
                rest (calls ++ write_calls c p [len p]))
      as (st' & Hrun & Q & O & R & T & C); try assumption; try reflexivity; try lia.
    exists st'. split.
    + rewrite Hrun. unfold whole_writes. simpl. now rewrite <- app_assoc.
    + cbn in O, R, T. unfold len in *. cbn [List.length].
      repeat split; try assumption; lia.
Qed.

(** First sent, first written.  Non-empty buffers sent on an open
    protocol object with an empty write queue are handed to the
    connection by the write thread one call each (the connection taking
    each whole), in the order they were sent; afterwards the queue is
    empty and one output packet is counted per buffer. *)
Theorem sent_buffers_are_written_in_order
    (c : Connection) (ps : list bytes) (fuel n : nat) (st : State)
    (rest : list (result Z)) :
  Forall (fun p => p <> []) ps ->
  _closed st = false ->
  _conn st = Some c ->
  _write_queue st = [] ->
  (List.length ps <= n)%nat ->
  (1 <= fuel)%nat ->
  exists st1 st2,
    send_all (map VBytes ps) st = (Ok tt, st1) /\
    write_while fuel n (mkWire st1 (map (fun p => Val (len p)) ps ++ rest) [])
    = (Ok tt, mkWire st2 rest (whole_writes c ps)) /\
    _write_queue st2 = [] /\
    output_packetcount st2 = output_packetcount st + len ps.
Proof.
  intros Hps Hcl Hc Hq Hn Hfuel.
  destruct (send_all_open (map VBytes ps) st Hcl)
    as (st1 & Hsend & Q1 & C1 & N1 & _ & O1 & _).
  rewrite Hq in Q1. simpl in Q1.
  destruct (@write_while_flush c ps Hps n fuel st1 rest [] Q1)
    as (st2 & Hrun & Q2 & O2 & _); try congruence; try assumption.
  exists st1, st2. repeat split; try assumption. congruence.
Qed.

(** The exit marker.  When the oldest item of the write queue is
    [None], [_write] runs [close] and returns [False], and the write
    thread ends there: the connection's [write] is not called, and the
    buffers queued behind the marker are never written. *)
Theorem exit_marker_ends_the_writer
    (fuel n : nat) (st : State) (q : Queue) (f : Callback)
    (ans : list (result Z)) (calls : list WriteCall) :
  _write_queue st = VNone :: q ->
  _closed st = false ->
  _process_packet_cb st = Some f ->
  _write fuel (mkWire st ans calls)
  = (Ok false, mkWire (snd (close (set_write_queue q st))) ans calls) /\
  write_while fuel (S n) (mkWire st ans calls)
  = (Ok tt, mkWire (snd (close (set_write_queue q st))) ans calls) /\
  _write_queue (snd (close (set_write_queue q st))) = exit_queue.
Proof.
  intros Hq Hcl Hcb.
  assert (H : _write fuel (mkWire st ans calls)
              = (Ok false, mkWire (snd (close (set_write_queue q st))) ans calls)).
  { unfold _write. unfold wbind at 1, lift at 1, read at 1. cbn [proto answers wire].
    rewrite Hq.
    unfold wbind at 1, lift at 1, modify at 1. cbn [proto answers wire].
    unfold wbind at 1, lift at 1. cbn [proto answers wire].
    pose proof (close_returns (set_write_queue q st) (f := f) Hcb) as Hok.
    destruct (close (set_write_queue q st)) as [o s]. simpl in Hok |- *.
    now rewrite Hok. }
  repeat split.
  - exact H.
  - cbn [write_while]. unfold wbind at 1, lift at 1, read at 1.
    cbn [proto answers wire]. rewrite Hcl.
    unfold wbind at 1, lift at 1, read at 1. cbn [proto answers wire]. rewrite Hq.
    unfold wbind at 1. rewrite H. reflexivity.
  - destruct st as [conn cb wq buf ipc irc opc orc cl pp wt rt lg tr].
    simpl in Hcl, Hcb. subst. destruct conn, lg; reflexivity.
Qed.

(** A failing [write].  On an open protocol object, when the
    connection's [write] raises while a buffer is being written, the
    write thread ends without raising: for an [OSError] (raised with
    arguments) it only schedules [_connection_lost] on the idle tick, for any other
    exception it runs [close] at once.  The buffer has left the queue,
    is not offered again and is not counted as an output packet. *)
Theorem write_thread_handles_errors
    (fuel n : nat) (e : exn) (st : State) (c : Connection) (f : Callback)
    (x : byte) (bs : bytes) (q : Queue)
    (rest : list (result Z)) (calls : list WriteCall) :
  _write_queue st = VBytes (x :: bs) :: q ->
  _conn st = Some c ->
  _closed st = false ->
  _process_packet_cb st = Some f ->
  let st1 := set_write_queue q st in
  _write_thread_loop (S fuel) (S n) (mkWire st (Exc e :: rest) calls) =
  (Ok tt,
   mkWire
     match e with
     | OSError =>
         set_trace (trace st1 ++
                      [IdleAdd (DConnectionLost
                                  ("write connection " ++ conn_str (Some c) ++ " reset"))])
           st1
     | _ => snd (close st1)
     end
     rest calls).
Proof.
  intros Hq Hc Hcl Hcb st1.
  assert (Hcb1 : _process_packet_cb st1 = Some f) by exact Hcb.
  pose proof (close_returns st1 Hcb1) as Hok.
  assert (Hloop : write_while (S fuel) (S n) (mkWire st (Exc e :: rest) calls)
                  = (Raise e, mkWire st1 rest calls)).
  { cbn [write_while]. unfold wbind at 1, lift at 1, read at 1.
    cbn [proto answers wire]. rewrite Hcl.
    unfold wbind at 1, lift at 1, read at 1. cbn [proto answers wire]. rewrite Hq.
    unfold wbind at 1, _write at 1.
    unfold wbind at 1, lift at 1, read at 1. cbn [proto answers wire]. rewrite Hq.
    unfold wbind at 1, lift at 1, modify at 1. cbn [proto answers wire].
    unfold wbind at 1, lift at 1, read at 1. cbn [proto answers wire].
    replace (_conn (set_write_queue q st)) with (Some c) by (symmetry; exact Hc).
    unfold wbind at 1. cbn [write_buf].
    unfold wbind at 1, lift at 1, read at 1. cbn [proto answers wire].
    replace (_closed (set_write_queue q st)) with false by (symmetry; exact Hcl).
    cbn [py_truthy andb negb].
    unfold wbind at 1, con_write at 1. cbn [proto answers wire]. reflexivity. }
  unfold _write_thread_loop. rewrite Hloop.
  unfold lift, io_handler. cbn [proto answers wire].
  unfold bind at 1, read at 1.
  replace (_closed st1) with false by (symmetry; exact Hcl).
  unfold bind at 1, read at 1.
  replace (_conn st1) with (Some c) by (symmetry; exact Hc).
  destruct e;
    try (destruct (close st1) as [o s]; simpl in Hok |- *; now rewrite Hok).
  - unfold _connection_lost, bind, ret.
    destruct (close st1) as [o s]. simpl in Hok |- *. now rewrite Hok.
  - unfold _internal_error, bind, read, idle_add, emit, modify.
    replace (_closed st1) with false by (symmetry; exact Hcl). reflexivity.
Qed.

End Writer.

Section AfterClose.

Context {K : RfbConst} {X : Externals} {V : Subclass}.

(** Nothing runs on a closed protocol object.  After [close], whatever
    the connection would deliver and whatever is queued: the read
    thread's loop ends without reading or parsing, the write thread's
    loop ends without taking a buffer or writing, the deferred start of
    the read thread starts nothing, [_internal_error] schedules nothing
    and a further [close] does nothing; the state stays as [close] left
    it. *)
Theorem closed_protocol_is_inert
    (st : State) (fuel n : nat) (reads : list (result bytes))
    (ans : list (result Z)) (calls : list WriteCall) (msg : string) :
  let st' := snd (close st) in
  _read_thread_loop fuel reads st' = (Ok tt, st') /\
  _write_thread_loop fuel n (mkWire st' ans calls) = (Ok tt, mkWire st' ans calls) /\
  run_deferred DStartNetworkReadThread st' = (Ok tt, st') /\
  _internal_error msg st' = (Ok tt, st') /\
  close st' = (Ok tt, st').
Proof.
  intros st'. pose proof (close_sets_closed st) as Hcl. fold st' in Hcl.
  repeat split.
  - unfold _read_thread_loop, try_except.
    destruct reads; simpl read_while; [reflexivity |].
    unfold bind, read. now rewrite Hcl.
  - unfold _write_thread_loop.
    destruct n; cbn [write_while]; unfold wbind, lift, read;
      cbn [proto answers wire]; now rewrite Hcl.
  - unfold run_deferred, bind, read, pass, ret. now rewrite Hcl.
  - unfold _internal_error, bind, read. now rewrite Hcl.
  - now apply close_when_closed.
Qed.

End AfterClose.

Section Framing.

Context {K : RfbConst} {X : Externals}.

(** ClientCutText framing.  For a buffer whose type byte is
    ClientCutText, with [s] the fixed layout of that type and a length
    [l >= 0] in its fifth field: the parser returns 0 with the state
    untouched while fewer than [s.size + l] bytes are buffered; with at
    least that many it returns exactly [s.size + l] and hands the packet
    sink one packet: the type name, the remaining fixed fields, and last
    the [l] bytes of text that follow the fixed part. *)
Theorem cut_text_framing
    (x : byte) (rest : bytes) (a : Ascii.ascii) (name : string) (s : Struct)
    (st : State) (l : Z) :
  let packet := x :: rest in
  let fixed := unpack_fields s (firstn (struct_size_nat s) packet) in
  byte_val x = ClientCutText ->
  (ClientCutText =? SetEncodings) = false ->
  CLIENT_PACKET_TYPE_STR ClientCutText = Some (String a name) ->
  PACKET_STRUCT ClientCutText = Some s ->
  struct_size s <= len packet ->
  nth_error fixed 4 = Some l ->
  0 <= l ->
  (len packet < struct_size s + l -> _parse_rfb packet st = (Ok 0, st)) /\
  (forall f,
      struct_size s + l <= len packet ->
      _process_packet_cb st = Some f ->
      let text := firstn (Z.to_nat l) (skipn (struct_size_nat s) packet) in
      len text = l /\
      _parse_rfb packet st =
      (Ok (struct_size s + l),
       delivered f (VStr (String a name) :: map VInt (tl fixed) ++ [VBytes text]) st)).
Proof.
  intros packet fixed Hx Hother Hname Hs Hlen Hfixed Hl.
  pose proof (struct_size_nonneg s) as Hs0.
  assert (Hframe :
    frame packet =
    if len packet <? struct_size s + l then NeedMore
    else Message ((VStr (String a name) :: map VInt (tl fixed))
                    ++ [VBytes (slice packet (Some (struct_size s))
                                  (Some (struct_size s + l)))])
                 (struct_size s + l)).
  { unfold packet. rewrite frame_cons, Hx. fold packet.
    unfold frame_typed. rewrite Hname, Hs, Hother, Z.eqb_refl.
    destruct (len packet <? struct_size s) eqn:E; [apply Z.ltb_lt in E; lia |].
    rewrite slice_upto by lia.
    rewrite to_nat_struct_size. fold fixed.
    rewrite unpack_exact
      by (apply len_firstn; unfold struct_size in Hlen; exact Hlen).
    fold fixed. simpl frame_of.
    destruct fixed as [|v0 [|v1 [|v2 [|v3 [|v4 fixed']]]]]; try discriminate.
    simpl in Hfixed. injection Hfixed as ->. reflexivity. }
  split.
  - intros Hshort. rewrite parse_rfb_frame, Hframe.
    destruct (len packet <? struct_size s + l) eqn:E; [reflexivity |].
    apply Z.ltb_ge in E. lia.
  - intros f Hfull Hcb text.
    assert (Htext : slice packet (Some (struct_size s)) (Some (struct_size s + l)) = text).
    { rewrite slice_mid by lia.
      replace (struct_size s + l - struct_size s) with l by lia.
      now rewrite to_nat_struct_size. }
    split.
    + unfold text. rewrite len_firstn; [lia |].
      unfold len in *. rewrite length_skipn. unfold struct_size in *. lia.
    + rewrite parse_rfb_frame, Hframe.
      destruct (len packet <? struct_size s + l) eqn:E; [apply Z.ltb_lt in E; lia |].
      rewrite Htext. simpl run_frame. now apply dispatch_delivers.
Qed.

(** Messages without a trailer.  For a type byte other than
    SetEncodings and ClientCutText that has a name and a layout [s]:
    the parser returns 0 with the state untouched while fewer than
    [s.size] bytes are buffered; with at least that many it returns
    exactly [s.size], whatever follows, and hands the packet sink the
    type name followed by the fixed fields after the first.  A layout
    without any field makes it raise [IndexError] instead. *)
Theorem plain_message_framing
    (x : byte) (rest : bytes) (a : Ascii.ascii) (name : string) (s : Struct)
    (st : State) (f : Callback) :
  let packet := x :: rest in
  let fixed := unpack_fields s (firstn (struct_size_nat s) packet) in
  byte_val x <> SetEncodings ->
  byte_val x <> ClientCutText ->
  CLIENT_PACKET_TYPE_STR (byte_val x) = Some (String a name) ->
  PACKET_STRUCT (byte_val x) = Some s ->
  (len packet < struct_size s -> _parse_rfb packet st = (Ok 0, st)) /\
  (struct_size s <= len packet ->
   _process_packet_cb st = Some f ->
   _parse_rfb packet st =
   match fixed with
   | [] => (Raise IndexError, st)
   | _ :: fields =>
       (Ok (struct_size s), delivered f (VStr (String a name) :: map VInt fields) st)
   end).
Proof.
  intros packet fixed H1 H2 Hname Hs.
  apply Z.eqb_neq in H1, H2.
  pose proof (struct_size_nonneg s) as Hs0.
  assert (Hframe : frame packet = frame_typed (byte_val x) packet) by apply frame_cons.
  split.
  - intros Hlen. rewrite parse_rfb_frame, Hframe. unfold frame_typed.
    rewrite Hname, Hs.
    destruct (len packet <? struct_size s) eqn:E; [reflexivity |].
    apply Z.ltb_ge in E. lia.
  - intros Hlen Hcb. rewrite parse_rfb_frame, Hframe. unfold frame_typed.
    rewrite Hname, Hs, H1, H2.
    destruct (len packet <? struct_size s) eqn:E; [apply Z.ltb_lt in E; lia |].
    rewrite slice_upto by lia.
    rewrite to_nat_struct_size. fold fixed.
    rewrite unpack_exact
      by (apply len_firstn; unfold struct_size in Hlen; exact Hlen).
    fold fixed. simpl frame_of.
    destruct fixed as [|v0 fields]; [reflexivity |].
    simpl. now apply dispatch_delivers.
Qed.

End Framing.

Section Invariants.

Context {K : RfbConst} {X : Externals} {V : Subclass}.







End Invariants.

(** * The further properties on the sample instantiation *)

Section MoreSampleRuns.

#[local] Existing Instance Sample.externals.
#[local] Existing Instance Sample.no_auth.

Import Sample SampleStream.

Lemma stream_reassembly_witness :
  exists st',
    read_while (K := table) 3 (map Val pieces) st_rfb = (Ok tt, st') /\
    sink_packets (trace st') =
      sink_packets (trace st_rfb) ++ [set_encodings_3_values; pointer_event_values] /\
    _buffer st' = [] /\
    input_packetcount st' = input_packetcount st_rfb + 2 /\
    _packet_parser st' = ParseRfb.
Proof.
  apply (stream_reassembly (K := table) (fuel := 3) (msgs := messages)
           (chunks := pieces) st_rfb (c := Conn 0) (f := PacketSink 0));
    [ repeat constructor | reflexivity | repeat constructor; discriminate
    | apply le_n | reflexivity | reflexivity | reflexivity | reflexivity | reflexivity ].
Defined.

Lemma handshake_rejects_wrong_header_witness :
  fst (_parse_protocol_handshake (b "XFB 003.008" ++ [newline]) st0) = Ok 0 /\
  _packet_parser (snd (_parse_protocol_handshake (b "XFB 003.008" ++ [newline]) st0))
  = ParseInvalid.
Proof.
  rewrite (handshake_rejects_wrong_header (b "XFB 003.008" ++ [newline]) st0);
    [split; reflexivity | vm_compute; discriminate | reflexivity].
Defined.

Lemma handshake_accepts_any_spelling_witness :
  _parse_protocol_handshake (b "RFB 3.8    " ++ [newline]) st0 = (Ok 12, st_rfb).
Proof.
  rewrite (handshake_accepts_any_spelling (b "RFB 3.8    " ++ [newline]) st0);
    [reflexivity | vm_compute; discriminate | reflexivity | reflexivity].
Defined.

Lemma handshake_consumes_0_or_12_witness :
  12 = 0 \/ (12 = 12 /\ 12 <= len (b "RFB 003.008" ++ [newline])).
Proof.
  apply (handshake_consumes_0_or_12 (b "RFB 003.008" ++ [newline]) st0
           (st' := st_rfb) (consumed := 12)).
  reflexivity.
Defined.

Lemma parse_rfb_never_overruns_witness : 16 <= len set_encodings_3.
Proof.
  apply (parse_rfb_never_overruns (K := table) set_encodings_3 st_rfb
           (st' := delivered (PacketSink 0) set_encodings_3_values st_rfb)
           (consumed := 16)).
  reflexivity.
Defined.

Lemma parse_loop_ends_with_unsigned_lengths_witness :
  fst (parse_loop (K := SampleUnsigned.table) 9
         (set_buffer (cut_text_minus_16 x06) st_rfb)) <> OutOfFuel.
Proof.
  apply (proj2 (parse_loop_ends_with_unsigned_lengths (K := SampleUnsigned.table)
                  ltac:(intros s H; injection H as <-; repeat constructor))
           (set_buffer (cut_text_minus_16 x06) st_rfb)).
  now left.
Defined.

Lemma discard_read_drops_everything_witness :
  _read (K := table) 1 (Val [x01; x02])
    (set_buffer [x09] (set_packet_parser ParseInvalid st_rfb))
  = (Ok (Some true),
     set_buffer [] (absorb [x01; x02]
                      (set_buffer [x09] (set_packet_parser ParseInvalid st_rfb)))).
Proof.
  apply (discard_read_drops_everything (K := table) (fuel := 1) (buf := [x01; x02])
           (set_buffer [x09] (set_packet_parser ParseInvalid st_rfb)) (c := Conn 0));
    [apply le_n | discriminate | reflexivity | reflexivity].
Defined.

Lemma handshake_leaves_the_rest_witness :
  parse_loop (K := table) 2
    (set_buffer ((b "RFB 003.008" ++ [newline]) ++ set_encodings_3) st0)
  = parse_loop (K := table) 1 (set_buffer set_encodings_3 st_rfb).
Proof.
  apply (handshake_leaves_the_rest (K := table) 1 (rest := set_encodings_3)
           (set_buffer ((b "RFB 003.008" ++ [newline]) ++ set_encodings_3) st0)
           (st1 := set_buffer ((b "RFB 003.008" ++ [newline]) ++ set_encodings_3) st_rfb));
    reflexivity.
Defined.

Lemma read_thread_stops_at_eof_witness :
  _read_thread_loop (K := table) 1 [Val []; Val set_encodings_3] st_rfb
  = (Ok tt, set_trace [TimeoutAdd 1000 DClose] st_rfb).
Proof.
  apply (proj2 (read_thread_stops_at_eof (K := table) 1 [Val set_encodings_3] st_rfb
                  (c := Conn 0) eq_refl eq_refl)).
Defined.

Lemma read_thread_handles_errors_witness :
  _read_thread_loop (K := table) 1 [Exc OSError] st_rfb
  = (Ok tt,
     set_trace [IdleAdd (DConnectionLost
                           ("read connection " ++ conn_str (Some (Conn 0)) ++ " reset"))]
       st_rfb).
Proof.
  apply (read_thread_handles_errors (K := table) 1 [] OSError st_rfb
           (c := Conn 0) (f := PacketSink 0) eq_refl eq_refl eq_refl).
Defined.

Lemma invalid_notifies_before_closing_witness :
  sink_packets
    (trace (snd ((invalid "bad" [x09] ;;
                  run_deferred (DSink (Some (PacketSink 0))
                                  [INVALID; VStr "bad"; VBytes [x09]]) ;;
                  run_deferred (DConnectionLost "bad"))%py st_rfb)))
  = [[INVALID; VStr "bad"; VBytes [x09]]; [CONNECTION_LOST]].
Proof.
  destruct (invalid_notifies_before_closing "bad" [x09] st_rfb
              (c := Conn 0) (f := PacketSink 0) eq_refl eq_refl eq_refl)
    as (_ & _ & H & _).
  exact H.
Defined.

Lemma send_starts_the_writer_once_witness :
  exists st',
    send_all [VBytes [x01]; VBytes [x02]] st_rfb = (Ok tt, st') /\
    _write_queue st' = [VBytes [x01]; VBytes [x02]] /\
    count is_start_write (trace st') = 1%nat.
Proof.
  destruct (send_starts_the_writer_once (ps := [VBytes [x01]; VBytes [x02]]) st_rfb
              eq_refl eq_refl ltac:(discriminate))
    as (st' & H1 & H2 & _ & H3 & _).
  exists st'. repeat split; assumption.
Defined.

Lemma write_flushes_whole_buffer_witness :
  taken (write_calls (Conn 0) [x01; x02; x03; x04; x05] [2; 0; 3])
  = [x01; x02; x03; x04; x05].
Proof.
  apply (proj2 (write_flushes_whole_buffer (c := Conn 0) (bs := [x01; x02; x03; x04; x05])
                  (q := [VBytes [x06]; VNone]) [2; 0; 3] [] [] (fuel := 3) st_queued
                  eq_refl eq_refl eq_refl eq_refl (le_n 3))).
Defined.

Lemma sent_buffers_are_written_in_order_witness :
  exists st1 st2,
    send_all (map VBytes [[x01; x02]; [x03]]) st_rfb = (Ok tt, st1) /\
    write_while 1 2 (mkWire st1 (map (fun p => Val (len p)) [[x01; x02]; [x03]] ++ []) [])
    = (Ok tt, mkWire st2 [] (whole_writes (Conn 0) [[x01; x02]; [x03]])) /\
    _write_queue st2 = [] /\
    output_packetcount st2 = output_packetcount st_rfb + 2.
Proof.
  apply (sent_buffers_are_written_in_order (c := Conn 0) (ps := [[x01; x02]; [x03]])
           (fuel := 1) (n := 2) st_rfb []);
    [ repeat constructor; discriminate | reflexivity | reflexivity | reflexivity
    | apply le_n | apply le_n ].
Defined.

Lemma cut_text_framing_witness :
  _parse_rfb (K := table) [x06; x00; x00; x00; x00; x00; x00; x02; x68; x69] st_rfb
  = (Ok 10,
     delivered (PacketSink 0)
       [VStr "ClientCutText"; VInt 0; VInt 0; VInt 0; VInt 2; VBytes [x68; x69]] st_rfb).
Proof.
  destruct (cut_text_framing (K := table) (x := x06)
              (rest := [x00; x00; x00; x00; x00; x00; x02; x68; x69])
              (a := "C"%char) (name := "lientCutText"%string) (s := [FB; FB; FB; FB; Fi])
              st_rfb (l := 2)
              ltac:(reflexivity) ltac:(reflexivity) ltac:(reflexivity) ltac:(reflexivity)
              ltac:(vm_compute; discriminate) ltac:(reflexivity) ltac:(lia))
    as [_ H].
  destruct (H (PacketSink 0) ltac:(vm_compute; discriminate) eq_refl) as [_ Heq].
  exact Heq.
Defined.

Lemma plain_message_framing_witness :
  _parse_rfb (K := table) (pointer_event ++ [x05]) st_rfb
  = (Ok 6, delivered (PacketSink 0) pointer_event_values st_rfb).
Proof.
  apply (proj2 (plain_message_framing (K := table) x05 (tl pointer_event ++ [x05])
                  (a := "P"%char) (name := "ointerEvent"%string) (s := [FB; FB; FH; FH])
                  st_rfb (PacketSink 0)
                  ltac:(vm_compute; discriminate) ltac:(vm_compute; discriminate)
                  ltac:(reflexivity) ltac:(reflexivity)));
    [vm_compute; discriminate | reflexivity].
Defined.


Lemma exit_marker_ends_the_writer_witness :
  fst (_write 1 (mkWire (set_write_queue [VNone; VBytes [x06]] st_rfb) [] [])) = Ok false.
Proof.
  rewrite (proj1 (exit_marker_ends_the_writer 1 0
                    (set_write_queue [VNone; VBytes [x06]] st_rfb)
                    (q := [VBytes [x06]]) (f := PacketSink 0) [] []
                    eq_refl eq_refl eq_refl)).
  reflexivity.
Defined.

Lemma write_thread_handles_errors_witness :
  fst (_write_thread_loop 1 1 (mkWire st_queued [Exc OSError] [])) = Ok tt.
Proof.
  rewrite (write_thread_handles_errors 0 0 OSError st_queued
             (c := Conn 0) (f := PacketSink 0) (x := x01) (bs := [x02; x03; x04; x05])
             (q := [VBytes [x06]; VNone]) [] [] eq_refl eq_refl eq_refl eq_refl).
  reflexivity.
Defined.

End MoreSampleRuns.
